(** * schemareader/tableFilters.go: the table-quirks override layer

    A shallow embedding of [applyTableFilters] and of the two row
    callbacks it installs, followed by the properties the specification
    states about them.

    Conventions of the embedding.
    - A Go [map[string]V] is [option (gmap string V)]: [None] is the nil
      map (reads give the zero value, an assignment panics), [Some m] an
      allocated map.
    - A Go slice is a list; nil and empty slices are not told apart, and
      [append] is [++].  In-place updates [value[i].Value = ...] are list
      inserts at index [i].
    - A run-time panic is the [Panics] result of [outcome].
    - A Go [string] is a [string], a [[]byte] is a [list byte]. *)

From Stdlib Require Import ZArith Lia.
From Stdlib Require Import Strings.Byte.
From stdpp Require Import base option list strings gmap.

Local Open Scope string_scope.
Local Open Scope list_scope.

(** ** Results of code that may panic *)

Inductive panic : Set :=
| NilMapAssignment      (* assignment to entry in nil map *)
| InterfaceConversion   (* failed type assertion x.(T) *)
| IndexOutOfRange.      (* slice index out of range *)

Inductive outcome (A : Type) : Type :=
| Returns (a : A)
| Panics (p : panic).
Arguments Returns {A} a.
Arguments Panics {A} p.

Definition outcome_bind {A B} (f : A -> outcome B) (x : outcome A) : outcome B :=
  match x with
  | Returns a => f a
  | Panics p => Panics p
  end.

#[global] Instance outcome_mbind : MBind outcome := @outcome_bind.
#[global] Instance outcome_mret : MRet outcome := @Returns.
#[global] Instance outcome_fmap : FMap outcome :=
  fun A B f x => match x with Returns a => Returns (f a) | Panics p => Panics p end.

(** ** Go maps *)

Abbreviation gomap V := (option (gmap string V)).

(** [m[k]] on the right of an assignment: the zero value when the key is
    missing or the map is nil. *)
Definition mapaccess {V} (zero : V) (m : gomap V) (k : string) : V :=
  match m with
  | None => zero
  | Some g => default zero (g !! k)
  end.

(** [m[k] = v]: panics on the nil map, overwrites the entry otherwise. *)
Definition mapassign {V} (m : gomap V) (k : string) (v : V) : outcome (gomap V) :=
  match m with
  | None => Panics NilMapAssignment
  | Some g => Returns (Some (<[k := v]> g))
  end.

(** ** Data model *)

(** Modelled from the spec: the [UniqueIndex] struct, declared elsewhere
    in package schemareader: a name and its ordered columns. *)
Module UniqueIndex.
Record t : Type := mk { Name : string; Columns : list string }.
(** The zero value [UniqueIndex{}]. *)
Definition zero : t := {| Name := EmptyString; Columns := [] |}.
End UniqueIndex.

(** Modelled from the spec: the [Reference] struct, declared elsewhere
    in package schemareader: the referenced table and the mapping from
    this table's columns to the referenced table's. *)
Record Reference : Type := {
  TableName : string;
  ColumnMapping : gomap string
}.

(** Modelled from the spec: what a column's [interface{}] value can
    hold, SQL NULL and the five value classes of the row model. *)
Inductive value : Type :=
| Nil
| Text (s : string)
| Binary (b : list byte)
| Numeric (z : Z)
| Boolean (b : bool)
| Timestamp (t : Z).

(** Modelled from the spec: [sqlUtil.RowDataStructure], declared in
    package sqlUtil, which is not part of this file.  One column of a
    row: its name, its declared type, its current value and the
    schema-declared initial value that [GetInitialValue] exposes. *)
Record RowDataStructure : Type := {
  ColumnName : string;
  ColumnType : string;
  initialValue : value;
  Value : value
}.

(** Modelled from the spec: [GetInitialValue], the accessor of a
    column's schema-declared default/initial value. *)
Definition GetInitialValue (row : RowDataStructure) : value := initialValue row.

(** [row.Value = v] *)
Definition setValue (row : RowDataStructure) (v : value) : RowDataStructure :=
  {| ColumnName := ColumnName row; ColumnType := ColumnType row;
     initialValue := initialValue row; Value := v |}.

(** A Go func value stored in [Table.RowModCallback].  The two closures
    of this file capture nothing, so each is its code; a callback that
    some other package stored in the field is known only by identity.
    (The Go type of the field mentions [Table] in argument position, so
    the field cannot hold a Rocq function over [Table].) *)
Inductive funcval : Set :=
| rhnerrata_callback
| susesaltpillar_callback
| foreign_callback (id : positive).

(** Modelled from the spec: the [Table] struct, declared elsewhere in
    package schemareader, with the fields the filters read or write. *)
Record Table : Type := {
  Name : string;
  PKSequence : string;
  UniqueIndexes : gomap UniqueIndex.t;
  MainUniqueIndexName : string;
  UnexportColumns : gomap bool;
  References : list Reference;
  RowModCallback : option funcval
}.

(** Field assignments [table.F = x]. *)
Definition setPKSequence (table : Table) (x : string) : Table :=
  {| Name := Name table; PKSequence := x; UniqueIndexes := UniqueIndexes table;
     MainUniqueIndexName := MainUniqueIndexName table;
     UnexportColumns := UnexportColumns table; References := References table;
     RowModCallback := RowModCallback table |}.

Definition setUniqueIndexes (table : Table) (x : gomap UniqueIndex.t) : Table :=
  {| Name := Name table; PKSequence := PKSequence table; UniqueIndexes := x;
     MainUniqueIndexName := MainUniqueIndexName table;
     UnexportColumns := UnexportColumns table; References := References table;
     RowModCallback := RowModCallback table |}.

Definition setMainUniqueIndexName (table : Table) (x : string) : Table :=
  {| Name := Name table; PKSequence := PKSequence table;
     UniqueIndexes := UniqueIndexes table; MainUniqueIndexName := x;
     UnexportColumns := UnexportColumns table; References := References table;
     RowModCallback := RowModCallback table |}.

Definition setUnexportColumns (table : Table) (x : gomap bool) : Table :=
  {| Name := Name table; PKSequence := PKSequence table;
     UniqueIndexes := UniqueIndexes table;
     MainUniqueIndexName := MainUniqueIndexName table;
     UnexportColumns := x; References := References table;
     RowModCallback := RowModCallback table |}.

Definition setReferences (table : Table) (x : list Reference) : Table :=
  {| Name := Name table; PKSequence := PKSequence table;
     UniqueIndexes := UniqueIndexes table;
     MainUniqueIndexName := MainUniqueIndexName table;
     UnexportColumns := UnexportColumns table; References := x;
     RowModCallback := RowModCallback table |}.

Definition setRowModCallback (table : Table) (x : option funcval) : Table :=
  {| Name := Name table; PKSequence := PKSequence table;
     UniqueIndexes := UniqueIndexes table;
     MainUniqueIndexName := MainUniqueIndexName table;
     UnexportColumns := UnexportColumns table; References := References table;
     RowModCallback := x |}.

(** [table.UniqueIndexes[k] = idx]: the map is shared, the assignment
    panics when it is nil. *)
Definition assignUniqueIndex (table : Table) (k : string) (idx : UniqueIndex.t)
  : outcome Table :=
  m ← mapassign (UniqueIndexes table) k idx;
  mret (setUniqueIndexes table m).

(** ** Constants *)

Definition VirtualIndexName : string := "virtual_main_unique_index".

(** ** Package regexp, for the pattern syntax the file uses

    The one compiled pattern is [https://[^/]+/os-images/]: literal
    bytes and one negated single-byte class under a greedy [+].  On a
    [[]byte] the library decodes UTF-8, but a rune that is not ['/'] is
    made of bytes none of which is ['/'] (an ill-formed byte counts as one
    rune), so [[^/]] is read here as "one byte other than ['/']". *)

Inductive atom : Set :=
| Lit (c : byte)        (* the byte c *)
| PlusNot (c : byte).   (* [^c]+, greedy *)

Abbreviation regexp := (list atom).

(** The regular language of a pattern. *)
Inductive matches : regexp -> list byte -> Prop :=
| matches_empty : matches [] []
| matches_lit c re m :
    matches re m -> matches (Lit c :: re) (c :: m)
| matches_plus c re run m :
    run <> [] -> Forall (fun b => b <> c) run -> matches re m ->
    matches (PlusNot c :: re) (run ++ m).

(** [[^c]+] followed by the continuation [k]: the longest run is tried
    first, shorter ones on failure of [k]. *)
Fixpoint greedyPlus (c : byte) (k : list byte -> option (list byte))
    (src : list byte) : option (list byte) :=
  match src with
  | [] => None
  | b :: src' =>
      if Byte.eqb b c then None
      else match greedyPlus c k src' with
           | Some rest => Some rest
           | None => k src'
           end
  end.

(** The match of [re] anchored at the start of [src] that the library
    prefers, as the input left after it. *)
Fixpoint matchHere (re : regexp) (src : list byte) : option (list byte) :=
  match re with
  | [] => Some src
  | Lit c :: re' =>
      match src with
      | b :: src' => if Byte.eqb b c then matchHere re' src' else None
      | [] => None
      end
  | PlusNot c :: re' => greedyPlus c (matchHere re') src
  end.

(** [re.ReplaceAll(src, repl)] for a [repl] without [$]: scan from the
    left; where a match starts emit [repl] and continue after the match,
    elsewhere copy one byte.  [fuel] bounds the number of scan steps.
    A pattern of this syntax with at least one atom never matches the
    empty string, so the library's rules for empty matches do not come
    into play. *)
Fixpoint replaceAllFrom (fuel : nat) (re : regexp) (src repl : list byte)
  : list byte :=
  match fuel with
  | 0 => src
  | S fuel' =>
      match src with
      | [] => []
      | b :: src' =>
          match matchHere re src with
          | Some rest => repl ++ replaceAllFrom fuel' re rest repl
          | None => b :: replaceAllFrom fuel' re src' repl
          end
      end
  end.

Definition ReplaceAll (re : regexp) (src repl : list byte) : list byte :=
  replaceAllFrom (length src) re src repl.

Definition bytes (s : string) : list byte := String.list_byte_of_string s.

(** [regexp.MustCompile(`https://[^/]+/os-images/`)] *)
Definition osImagesPattern : regexp :=
  map Lit (bytes "https://") ++ PlusNot "/"%byte :: map Lit (bytes "/os-images/").

(** ** Type assertions *)

(** [v.(string)] *)
Definition assertString (v : value) : outcome string :=
  match v with
  | Text s => Returns s
  | _ => Panics InterfaceConversion
  end.

(** [v.([]byte)] *)
Definition assertBytes (v : value) : outcome (list byte) :=
  match v with
  | Binary b => Returns b
  | _ => Panics InterfaceConversion
  end.

(** [strings.Compare(a, b)]: -1, 0 or 1 by bytewise lexicographic order. *)
Definition Compare (a b : string) : Z :=
  match String.compare a b with
  | Eq => 0
  | Lt => -1
  | Gt => 1
  end.

(** [strings.HasPrefix(s, prefix)] *)
Definition HasPrefix (s prefix : string) : bool := String.prefix prefix s.

(** ** The row callback of rhnerrata *)

(** One iteration of [for i, row := range value]. *)
Definition rhnerrataStep (value : list RowDataStructure) (i : nat)
  : list RowDataStructure :=
  match value !! i with
  | Some row =>
      if Z.eqb (Compare (ColumnName row) "severity_id") 0
      then <[i := setValue row (GetInitialValue row)]> value
      else value
  | None => value
  end.

Definition rhnerrataRowMod (value : list RowDataStructure) (table : Table)
  : outcome (list RowDataStructure) :=
  Returns (foldl rhnerrataStep value (seq 0 (length value))).

(** ** The row callback of susesaltpillar *)

(** The scanning loop, from column [i] on, threading the two locals
    [isImagePillar] and [pillarColumn].  The trace-level log line does
    not feed into the result and is left out. *)
Fixpoint pillarScan (i : nat) (columns : list RowDataStructure)
    (isImagePillar : bool) (pillarColumn : nat) : outcome (bool * nat) :=
  match columns with
  | [] => Returns (isImagePillar, pillarColumn)
  | column :: columns' =>
      image ← (if Z.eqb (Compare (ColumnName column) "category") 0
               then s ← assertString (Value column); mret (HasPrefix s "Image")
               else mret false);
      if image : bool then pillarScan (S i) columns' true pillarColumn
      else if Z.eqb (Compare (ColumnName column) "pillar") 0
           then pillarScan (S i) columns' isImagePillar i
           else pillarScan (S i) columns' isImagePillar pillarColumn
  end.

Definition susesaltpillarRowMod (value : list RowDataStructure) (table : Table)
  : outcome (list RowDataStructure) :=
  st ← pillarScan 0 value false 0;
  let '(isImagePillar, pillarColumn) := st in
  if isImagePillar : bool then
    let re := osImagesPattern in
    let repl := bytes "https://{SERVER_FQDN}/os-images/" in
    match value !! pillarColumn with
    | None => Panics IndexOutOfRange
    | Some column =>
        src ← assertBytes (Value column);
        mret (<[pillarColumn := setValue column (Binary (ReplaceAll re src repl))]> value)
    end
  else mret value.

(** Calling the function a [funcval] stands for; the body of a callback
    stored by another package is not known here. *)
Definition callRowMod (f : funcval)
  : option (list RowDataStructure -> Table -> outcome (list RowDataStructure)) :=
  match f with
  | rhnerrata_callback => Some rhnerrataRowMod
  | susesaltpillar_callback => Some susesaltpillarRowMod
  | foreign_callback _ => None
  end.

(** ** applyTableFilters *)

(** [make(map[string]V)] *)
Definition make {V} : gomap V := Some ∅.

(** The replacement edge built in the suseimageprofile case. *)
Definition activationKeyReference : Reference :=
  {| TableName := "rhnactivationkey";
     ColumnMapping := Some {[ "token_id" := "reg_token_id" ]} |}.

(** One iteration of [for _, r := range table.References], on the slice
    [references] under construction. *)
Definition retargetStep (references : list Reference) (r : Reference)
  : list Reference :=
  if Z.eqb (Compare (TableName r) "rhnregtoken") 0
  then references ++ [activationKeyReference]
  else references ++ [r].

(** The [switch table.Name] is a chain of string comparisons, first
    match wins; a name without a case falls through to [return table]. *)
Definition applyTableFilters (table : Table) : outcome Table :=
  if String.eqb (Name table) "rhnchecksumtype" then
      mret (setPKSequence table "rhn_checksum_id_seq")
  else if String.eqb (Name table) "rhnchecksum" then
      mret (setPKSequence table "rhnchecksum_seq")
  else if String.eqb (Name table) "rhnpackagearch" then
      mret (setPKSequence table "rhn_package_arch_id_seq")
  else if String.eqb (Name table) "rhnchannelarch" then
      mret (setPKSequence table "rhn_channel_arch_id_seq")
  else if String.eqb (Name table) "rhnpackagename" then
      mret (setPKSequence table "RHN_PKG_NAME_SEQ")
  else if String.eqb (Name table) "rhnpackagenevra" then
      mret (setPKSequence table "rhn_pkgnevra_id_seq")
  else if String.eqb (Name table) "rhnpackagesource" then
      mret (setPKSequence table "rhn_package_source_id_seq")
  else if String.eqb (Name table) "rhnpackagekey" then
      mret (setPKSequence table "rhn_pkey_id_seq")
  else if String.eqb (Name table) "rhnpackageextratag" then
      let virtualIndexColumns := ["package_id"; "key_id"] in
      table ← assignUniqueIndex table VirtualIndexName
                (UniqueIndex.mk VirtualIndexName virtualIndexColumns);
      mret (setMainUniqueIndexName table VirtualIndexName)
  else if String.eqb (Name table) "rhnpackageevr" then
      let table := setPKSequence table "rhn_pkg_evr_seq" in
      unexportColumns ← mapassign make "type" true;
      let table := setUnexportColumns table unexportColumns in
      table ← assignUniqueIndex table "rhn_pe_v_r_e_uq"
                (UniqueIndex.mk "rhn_pe_v_r_e_uq"
                   (UniqueIndex.Columns
                      (mapaccess UniqueIndex.zero (UniqueIndexes table) "rhn_pe_v_r_e_uq")
                    ++ ["type"]));
      assignUniqueIndex table "rhn_pe_v_r_uq"
        (UniqueIndex.mk "rhn_pe_v_r_uq"
           (UniqueIndex.Columns
              (mapaccess UniqueIndex.zero (UniqueIndexes table) "rhn_pe_v_r_uq")
            ++ ["type"]))
  else if String.eqb (Name table) "rhnpackage" then
      let table := setPKSequence table "RHN_PACKAGE_ID_SEQ" in
      let virtualIndexColumns := ["name_id"; "evr_id"; "package_arch_id"; "checksum_id"; "org_id"] in
      table ← assignUniqueIndex table VirtualIndexName
                (UniqueIndex.mk VirtualIndexName virtualIndexColumns);
      mret (setMainUniqueIndexName table VirtualIndexName)
  else if String.eqb (Name table) "rhnpackagechangelogdata" then
      let table := setPKSequence table "rhn_pkg_cld_id_seq" in
      let virtualIndexColumns := ["name"; "text"; "time"] in
      table ← assignUniqueIndex table VirtualIndexName
                (UniqueIndex.mk VirtualIndexName virtualIndexColumns);
      mret (setMainUniqueIndexName table VirtualIndexName)
  else if String.eqb (Name table) "rhnpackagechangelogrec" then
      mret (setPKSequence table "rhn_pkg_cl_id_seq")
  else if String.eqb (Name table) "rhnpackagecapability" then
      let table := setPKSequence table "RHN_PKG_CAPABILITY_ID_SEQ" in
      let virtualIndexColumns := ["name"; "version"] in
      table ← assignUniqueIndex table VirtualIndexName
                (UniqueIndex.mk VirtualIndexName virtualIndexColumns);
      mret (setMainUniqueIndexName table VirtualIndexName)
  else if String.eqb (Name table) "rhnconfigfiletype" then
      let virtualIndexColumns := ["label"] in
      table ← assignUniqueIndex table VirtualIndexName
                (UniqueIndex.mk VirtualIndexName virtualIndexColumns);
      mret (setMainUniqueIndexName table VirtualIndexName)
  else if String.eqb (Name table) "rhnconfigfile" then
      unexportColumns ← mapassign make "latest_config_revision_id" true;
      mret (setUnexportColumns table unexportColumns)
  else if String.eqb (Name table) "rhnconfigcontent" then
      let virtualIndexColumns := ["contents"; "file_size"; "checksum_id"; "is_binary"; "delim_start"; "delim_end"; "created"] in
      table ← assignUniqueIndex table VirtualIndexName
                (UniqueIndex.mk VirtualIndexName virtualIndexColumns);
      mret (setMainUniqueIndexName table VirtualIndexName)
  else if String.eqb (Name table) "suseimageinfo" then
      unexportColumns ← mapassign make "build_action_id" true;
      unexportColumns ← mapassign unexportColumns "inspect_action_id" true;
      unexportColumns ← mapassign unexportColumns "build_server_id" true;
      unexportColumns ← mapassign unexportColumns "log" true;
      let table := setUnexportColumns table unexportColumns in
      let virtualIndexColumns := ["name"; "version"; "image_type"; "image_arch_id"; "org_id"; "curr_revision_num"] in
      table ← assignUniqueIndex table VirtualIndexName
                (UniqueIndex.mk VirtualIndexName virtualIndexColumns);
      mret (setMainUniqueIndexName table VirtualIndexName)
  else if String.eqb (Name table) "suseimageinfochannel" then
      let virtualIndexColumns := ["channel_id"; "image_info_id"] in
      table ← assignUniqueIndex table VirtualIndexName
                (UniqueIndex.mk VirtualIndexName virtualIndexColumns);
      mret (setMainUniqueIndexName table VirtualIndexName)
  else if String.eqb (Name table) "suseimageprofile" then
      let table := setPKSequence table "suse_imgprof_prid_seq" in
      let references := foldl retargetStep [] (References table) in
      mret (setReferences table references)
  else if String.eqb (Name table) "susekiwiprofile" then
      let virtualIndexColumns := ["profile_id"] in
      table ← assignUniqueIndex table VirtualIndexName
                (UniqueIndex.mk VirtualIndexName virtualIndexColumns);
      mret (setMainUniqueIndexName table VirtualIndexName)
  else if String.eqb (Name table) "susedockerfileprofile" then
      let virtualIndexColumns := ["profile_id"; "path"] in
      table ← assignUniqueIndex table VirtualIndexName
                (UniqueIndex.mk VirtualIndexName virtualIndexColumns);
      mret (setMainUniqueIndexName table VirtualIndexName)
  else if String.eqb (Name table) "rhnerrata" then
      let table := setMainUniqueIndexName table "rhn_errata_adv_org_uq" in
      mret (setRowModCallback table (Some rhnerrata_callback))
  else if String.eqb (Name table) "susesaltpillar" then
      let table := setRowModCallback table (Some susesaltpillar_callback) in
      let virtualIndexColumns := ["server_id"; "group_id"; "org_id"; "category"] in
      table ← assignUniqueIndex table VirtualIndexName
                (UniqueIndex.mk VirtualIndexName virtualIndexColumns);
      mret (setMainUniqueIndexName table VirtualIndexName)
  else if String.eqb (Name table) "suseimagefile" then
      let table := setPKSequence table "suse_image_file_id_seq" in
      let virtualIndexColumns := ["image_info_id"; "file"] in
      table ← assignUniqueIndex table VirtualIndexName
                (UniqueIndex.mk VirtualIndexName virtualIndexColumns);
      mret (setMainUniqueIndexName table VirtualIndexName)
  else mret table.

(** * Notions used to state the properties *)

(** The names with a case in the switch. *)
Definition registryNames : list string :=
  [ "rhnchecksumtype"; "rhnchecksum"; "rhnpackagearch"; "rhnchannelarch";
    "rhnpackagename"; "rhnpackagenevra"; "rhnpackagesource"; "rhnpackagekey";
    "rhnpackageextratag"; "rhnpackageevr"; "rhnpackage";
    "rhnpackagechangelogdata"; "rhnpackagechangelogrec";
    "rhnpackagecapability"; "rhnconfigfiletype"; "rhnconfigfile";
    "rhnconfigcontent"; "suseimageinfo"; "suseimageinfochannel";
    "suseimageprofile"; "susekiwiprofile"; "susedockerfileprofile";
    "rhnerrata"; "susesaltpillar"; "suseimagefile" ].

(** The tables that get a virtual unique index, each with its hand-picked
    column list. *)
Definition virtualIndexes : list (string * list string) :=
  [ ("rhnpackageextratag", ["package_id"; "key_id"]);
    ("rhnpackage", ["name_id"; "evr_id"; "package_arch_id"; "checksum_id"; "org_id"]);
    ("rhnpackagechangelogdata", ["name"; "text"; "time"]);
    ("rhnpackagecapability", ["name"; "version"]);
    ("rhnconfigfiletype", ["label"]);
    ("rhnconfigcontent", ["contents"; "file_size"; "checksum_id"; "is_binary";
                          "delim_start"; "delim_end"; "created"]);
    ("suseimageinfo", ["name"; "version"; "image_type"; "image_arch_id"; "org_id";
                       "curr_revision_num"]);
    ("suseimageinfochannel", ["channel_id"; "image_info_id"]);
    ("susekiwiprofile", ["profile_id"]);
    ("susedockerfileprofile", ["profile_id"; "path"]);
    ("susesaltpillar", ["server_id"; "group_id"; "org_id"; "category"]);
    ("suseimagefile", ["image_info_id"; "file"]) ].

(** What the loop of the suseimageprofile case does to one edge. *)
Definition retarget (r : Reference) : Reference :=
  if Z.eqb (Compare (TableName r) "rhnregtoken") 0
  then activationKeyReference else r.

(** The edges of [refs] that point at table [name], in order. *)
Definition edgesTo (name : string) (refs : list Reference) : list Reference :=
  filter (fun r => TableName r = name) refs.

(** The columns stored for index [k], as [table.UniqueIndexes[k].Columns]
    reads them. *)
Definition indexColumns (t : Table) (k : string) : list string :=
  UniqueIndex.Columns (mapaccess UniqueIndex.zero (UniqueIndexes t) k).

(** What the loop does to one column. *)
Definition resetSeverity (row : RowDataStructure) : RowDataStructure :=
  if String.eqb (ColumnName row) "severity_id"
  then setValue row (GetInitialValue row) else row.

(** [rewritten re repl src dst]: reading [src] from the left, [dst] has
    [repl] for a word of [re] found in [src], and copies a byte of [src]
    only where no word of [re] starts. *)
Inductive rewritten (re : regexp) (repl : list byte)
  : list byte -> list byte -> Prop :=
| rewritten_end : rewritten re repl [] []
| rewritten_occurrence m rest dst :
    matches re m -> rewritten re repl rest dst ->
    rewritten re repl (m ++ rest) (repl ++ dst)
| rewritten_copy b rest dst :
    (forall m tail, matches re m -> b :: rest <> m ++ tail) ->
    rewritten re repl rest dst ->
    rewritten re repl (b :: rest) (b :: dst).

(** The byte the host of a URL may not contain. *)
Definition slash : byte := "/"%byte.

(** A column named category holds text. *)
Definition categoryIsText (c : RowDataStructure) : bool :=
  if String.eqb (ColumnName c) "category"
  then match Value c with Text _ => true | _ => false end
  else true.

(** A column named category holds text that starts with Image. *)
Definition isImageCategory (c : RowDataStructure) : bool :=
  String.eqb (ColumnName c) "category" &&
  match Value c with Text s => HasPrefix s "Image" | _ => false end.

(** A column named pillar. *)
Definition isPillar (c : RowDataStructure) : bool :=
  String.eqb (ColumnName c) "pillar".

(** The index the loop leaves in [pillarColumn]: that of the last column
    named pillar from position [i] on, [p] when there is none. *)
Fixpoint lastPillar (i : nat) (columns : list RowDataStructure) (p : nat) : nat :=
  match columns with
  | [] => p
  | c :: columns' => lastPillar (S i) columns' (if isPillar c then i else p)
  end.

(** The column the rewrite is applied to: the last column named pillar,
    the first column of the row when no column has that name. *)
Definition selectedColumn (value : list RowDataStructure)
  : option RowDataStructure :=
  match last (filter (fun c => isPillar c = true) value) with
  | Some c => Some c
  | None => head value
  end.

(** The typing the callback relies on: every column named category holds
    text and, when one of them starts with Image, the selected column
    holds binary data. *)
Definition pillarTyped (value : list RowDataStructure) : bool :=
  forallb categoryIsText value &&
  (if existsb isImageCategory value
   then match selectedColumn value with
        | Some c => match Value c with Binary _ => true | _ => false end
        | None => false
        end
   else true).

(** What a row says: per column its name, its value and its declared
    initial value. *)
Definition content (c : RowDataStructure) : string * value * value :=
  (ColumnName c, Value c, GetInitialValue c).

(** Two columns that say the same. *)
Definition sameContent (a b : RowDataStructure) : Prop := content a = content b.

(** The names whose case assigns into [table.UniqueIndexes]. *)
Definition indexWriters : list string :=
  "rhnpackageevr" :: map fst virtualIndexes.

(** The entry of [table.UniqueIndexes] under [k], if there is one. *)
Definition indexEntry (t : Table) (k : string) : option UniqueIndex.t :=
  m ← UniqueIndexes t; m !! k.

(** The main unique index names an entry of the index map. *)
Definition mainIndexPresent (t : Table) : Prop :=
  is_Some (indexEntry t (MainUniqueIndexName t)).

(** The replacement the susesaltpillar callback passes to ReplaceAll. *)
Definition placeholder : list byte := bytes "https://{SERVER_FQDN}/os-images/".


(** Some word of [re] starts [s]. *)
Definition startsWithWord (re : regexp) (s : list byte) : Prop :=
  exists m tail, matches re m /\ s = m ++ tail.

(** * Sample tables and rows *)

(** A table the switch has no case for. *)
Definition rhnserver : Table :=
  {| Name := "rhnserver"; PKSequence := "rhn_server_id_seq";
     UniqueIndexes := Some ∅; MainUniqueIndexName := EmptyString;
     UnexportColumns := None; References := []; RowModCallback := None |}.

(** rhnpackage before any index is known. *)
Definition rhnpackage_bare : Table :=
  {| Name := "rhnpackage"; PKSequence := EmptyString;
     UniqueIndexes := Some ∅; MainUniqueIndexName := EmptyString;
     UnexportColumns := None; References := []; RowModCallback := None |}.

(** rhnerrata with its two real unique indexes of the same size. *)
Definition rhnerrata_bare : Table :=
  {| Name := "rhnerrata"; PKSequence := "rhn_errata_id_seq";
     UniqueIndexes :=
       Some {[ "rhn_errata_adv_org_uq" :=
                 UniqueIndex.mk "rhn_errata_adv_org_uq" ["advisory"; "org_id"];
               "rhn_errata_advname_org_uq" :=
                 UniqueIndex.mk "rhn_errata_advname_org_uq" ["advisory_name"; "org_id"] ]};
     MainUniqueIndexName := EmptyString;
     UnexportColumns := None; References := []; RowModCallback := None |}.

(** suseimageprofile with its three foreign keys. *)
Definition suseimageprofile_schema : Table :=
  {| Name := "suseimageprofile"; PKSequence := EmptyString;
     UniqueIndexes := Some ∅; MainUniqueIndexName := EmptyString;
     UnexportColumns := None;
     References :=
       [ {| TableName := "web_customer"; ColumnMapping := Some {[ "org_id" := "id" ]} |};
         {| TableName := "rhnregtoken"; ColumnMapping := Some {[ "token_id" := "id" ]} |};
         {| TableName := "susecredentials"; ColumnMapping := Some {[ "creds_id" := "id" ]} |} ];
     RowModCallback := None |}.

(** An input with one edge to rhnregtoken and already an edge to
    rhnactivationkey: the result has two edges to rhnactivationkey, both
    with the mapping token_id -> reg_token_id, not exactly one. *)
Definition suseimageprofile_two_keys : Table :=
  {| Name := "suseimageprofile"; PKSequence := EmptyString;
     UniqueIndexes := Some ∅; MainUniqueIndexName := EmptyString;
     UnexportColumns := None;
     References :=
       [ {| TableName := "rhnregtoken"; ColumnMapping := Some {[ "token_id" := "id" ]} |};
         activationKeyReference ];
     RowModCallback := None |}.

(** rhnpackageevr with its two real unique indexes. *)
Definition rhnpackageevr_schema : Table :=
  {| Name := "rhnpackageevr"; PKSequence := EmptyString;
     UniqueIndexes :=
       Some {[ "rhn_pe_v_r_e_uq" :=
                 UniqueIndex.mk "rhn_pe_v_r_e_uq" ["version"; "release"; "epoch"];
               "rhn_pe_v_r_uq" :=
                 UniqueIndex.mk "rhn_pe_v_r_uq" ["version"; "release"] ]};
     MainUniqueIndexName := EmptyString;
     UnexportColumns := None; References := []; RowModCallback := None |}.

(** A row of rhnerrata with severity 3. *)
Definition errataRow : list RowDataStructure :=
  [ {| ColumnName := "id"; ColumnType := "NUMERIC";
       initialValue := Nil; Value := Numeric 17 |};
    {| ColumnName := "advisory"; ColumnType := "VARCHAR";
       initialValue := Nil; Value := Text "SUSE-RU-2021:70" |};
    {| ColumnName := "severity_id"; ColumnType := "NUMERIC";
       initialValue := Nil; Value := Numeric 3 |} ].

(** An image pillar, the payload column before the category. *)
Definition imagePillarRow : list RowDataStructure :=
  [ {| ColumnName := "pillar"; ColumnType := "BYTEA"; initialValue := Nil;
       Value := Binary (bytes "boot: https://old-host.example/os-images/foo.raw") |};
    {| ColumnName := "category"; ColumnType := "VARCHAR"; initialValue := Nil;
       Value := Text "Image-Something" |} ].

(** susesaltpillar as the table argument of its callback. *)
Definition susesaltpillar_bare : Table :=
  {| Name := "susesaltpillar"; PKSequence := EmptyString;
     UniqueIndexes := Some ∅; MainUniqueIndexName := EmptyString;
     UnexportColumns := None; References := []; RowModCallback := None |}.

(** A category column that holds a number. *)
Definition numericCategoryRow : list RowDataStructure :=
  [ {| ColumnName := "category"; ColumnType := "NUMERIC"; initialValue := Nil;
       Value := Numeric 7 |};
    {| ColumnName := "pillar"; ColumnType := "BYTEA"; initialValue := Nil;
       Value := Binary (bytes "x") |} ].

(** An image pillar stored as text. *)
Definition textPillarRow : list RowDataStructure :=
  [ {| ColumnName := "category"; ColumnType := "VARCHAR"; initialValue := Nil;
       Value := Text "Image-Something" |};
    {| ColumnName := "pillar"; ColumnType := "TEXT"; initialValue := Nil;
       Value := Text "https://old-host.example/os-images/foo.raw" |} ].

(** A row with an image category, no column named pillar, and binary
    data in its first column. *)
Definition pillarlessRow : list RowDataStructure :=
  [ {| ColumnName := "data"; ColumnType := "BYTEA"; initialValue := Nil;
       Value := Binary (bytes "https://old-host.example/os-images/foo.raw") |};
    {| ColumnName := "category"; ColumnType := "VARCHAR"; initialValue := Nil;
       Value := Text "Image-Something" |} ].

(** The same with the category first. *)
Definition categoryOnlyRow : list RowDataStructure :=
  [ {| ColumnName := "category"; ColumnType := "VARCHAR"; initialValue := Nil;
       Value := Text "Image-Something" |};
    {| ColumnName := "org_id"; ColumnType := "NUMERIC"; initialValue := Nil;
       Value := Numeric 1 |} ].


(** The image pillar row as another reader might type its columns. *)
Definition imagePillarRowRetyped : list RowDataStructure :=
  [ {| ColumnName := "pillar"; ColumnType := "bytea"; initialValue := Nil;
       Value := Binary (bytes "boot: https://old-host.example/os-images/foo.raw") |};
    {| ColumnName := "category"; ColumnType := "varchar(64)"; initialValue := Nil;
       Value := Text "Image-Something" |} ].

(** rhnpackage as a zero-valued table: every map nil. *)
Definition rhnpackage_nil : Table :=
  {| Name := "rhnpackage"; PKSequence := EmptyString;
     UniqueIndexes := None; MainUniqueIndexName := EmptyString;
     UnexportColumns := None; References := []; RowModCallback := None |}.

(** A table without a case, as a zero-valued table. *)
Definition rhnserver_nil : Table :=
  {| Name := "rhnserver"; PKSequence := EmptyString;
     UniqueIndexes := None; MainUniqueIndexName := EmptyString;
     UnexportColumns := None; References := []; RowModCallback := None |}.

(** suseimageinfo with a stale column marked and a callback of another
    package in place. *)
Definition suseimageinfo_marked : Table :=
  {| Name := "suseimageinfo"; PKSequence := "suse_imginfo_imgid_seq";
     UniqueIndexes :=
       Some {[ "suse_imginfo_imgid_pk" := UniqueIndex.mk "suse_imginfo_imgid_pk" ["id"] ]};
     MainUniqueIndexName := "suse_imginfo_imgid_pk";
     UnexportColumns := Some {[ "checksum_id" := true ]};
     References := []; RowModCallback := Some (foreign_callback 1) |}.

(** rhnerrata without its real indexes. *)
Definition rhnerrata_unindexed : Table :=
  {| Name := "rhnerrata"; PKSequence := "rhn_errata_id_seq";
     UniqueIndexes := Some ∅; MainUniqueIndexName := EmptyString;
     UnexportColumns := None; References := []; RowModCallback := None |}.

(** suseimageprofile with two edges to rhnregtoken and one to
    rhnactivationkey. *)
Definition suseimageprofile_many : Table :=
  {| Name := "suseimageprofile"; PKSequence := EmptyString;
     UniqueIndexes := Some ∅; MainUniqueIndexName := EmptyString;
     UnexportColumns := None;
     References :=
       [ {| TableName := "rhnregtoken"; ColumnMapping := Some {[ "token_id" := "id" ]} |};
         {| TableName := "web_customer"; ColumnMapping := Some {[ "org_id" := "id" ]} |};
         {| TableName := "rhnactivationkey"; ColumnMapping := Some {[ "key_id" := "id" ]} |};
         {| TableName := "rhnregtoken"; ColumnMapping := Some {[ "old_token_id" := "id" ]} |} ];
     RowModCallback := None |}.

(** * Properties *)

(** ** Evaluating the switch *)

(** Reduce the comparisons of the switch once the name is a literal,
    leaving maps and lists alone. *)
Ltac switch_on H :=
  unfold applyTableFilters; rewrite ?H;
  cbn [String.eqb Ascii.eqb Bool.eqb andb].

Lemma Compare_zero (a b : string) : Z.eqb (Compare a b) 0 = String.eqb a b.
Proof.
  unfold Compare. destruct (String.eqb_spec a b) as [-> | ne].
  - pose proof (String.compare_antisym b b) as A.
    destruct (String.compare b b); simpl in A; first [discriminate A | reflexivity].
  - destruct (String.compare a b) eqn:E; try reflexivity.
    apply String.compare_eq_iff in E. contradiction.
Qed.

(** Evaluate the chosen case on a table given by its fields. *)
Ltac run_case :=
  cbn [Name PKSequence UniqueIndexes MainUniqueIndexName UnexportColumns
       References RowModCallback
       setPKSequence setUniqueIndexes setMainUniqueIndexName
       setUnexportColumns setReferences setRowModCallback
       assignUniqueIndex mapassign mapaccess make
       mbind mret outcome_mbind outcome_mret outcome_bind].

Lemma in_registryNames (s : string) :
  In s registryNames -> s ∈ registryNames.
Proof. apply list_elem_of_In. Qed.

(** ** Names outside the registry *)

Lemma applyTableFilters_fallthrough (t : Table) :
  Name t ∉ registryNames -> applyTableFilters t = Returns t.
Proof.
  intros H. unfold applyTableFilters.
  repeat match goal with
  | |- context [String.eqb (Name t) ?s] =>
      destruct (String.eqb_spec (Name t) s) as [e | _];
      [ exfalso; apply H; rewrite e; apply in_registryNames;
        cbn [In registryNames]; tauto | ]
  end.
  reflexivity.
Qed.

(** C7: a table whose name has no case in the switch is returned as it
    came, so every field (PKSequence, UniqueIndexes, MainUniqueIndexName,
    UnexportColumns, References, RowModCallback) equals the input's. *)
Theorem applyTableFilters_unlisted (t : Table) :
  Name t ∉ registryNames ->
  exists t',
    applyTableFilters t = Returns t' /\ t' = t /\
    PKSequence t' = PKSequence t /\ UniqueIndexes t' = UniqueIndexes t /\
    MainUniqueIndexName t' = MainUniqueIndexName t /\
    UnexportColumns t' = UnexportColumns t /\ References t' = References t /\
    RowModCallback t' = RowModCallback t.
Proof.
  intros H. exists t. by rewrite (applyTableFilters_fallthrough t H).
Qed.

Lemma applyTableFilters_unlisted_witness :
  exists t',
    applyTableFilters rhnserver = Returns t' /\ t' = rhnserver /\
    PKSequence t' = PKSequence rhnserver /\
    UniqueIndexes t' = UniqueIndexes rhnserver /\
    MainUniqueIndexName t' = MainUniqueIndexName rhnserver /\
    UnexportColumns t' = UnexportColumns rhnserver /\
    References t' = References rhnserver /\
    RowModCallback t' = RowModCallback rhnserver.
Proof.
  apply (applyTableFilters_unlisted rhnserver).
  intros H. apply list_elem_of_In in H. cbn [In registryNames rhnserver Name] in H.
  repeat (destruct H as [H | H]; [discriminate H | ]). destruct H.
Defined.

(** ** Identity keys *)





(** C8: for rhnerrata the main unique index is pinned to the literal
    name of a real index; the index map is the input's, so nothing is
    stored under the reserved virtual name, and the pinned name does not
    depend on the input. *)
Theorem rhnerrata_pins_real_index (t : Table) :
  Name t = "rhnerrata" ->
  exists t',
    applyTableFilters t = Returns t' /\
    MainUniqueIndexName t' = "rhn_errata_adv_org_uq" /\
    UniqueIndexes t' = UniqueIndexes t /\
    RowModCallback t' = Some rhnerrata_callback /\
    Name t' = Name t /\ PKSequence t' = PKSequence t /\
    UnexportColumns t' = UnexportColumns t /\ References t' = References t.
Proof.
  intros H. switch_on H. eexists. split; [reflexivity | ].
  cbn [MainUniqueIndexName UniqueIndexes RowModCallback Name PKSequence
       UnexportColumns References setRowModCallback setMainUniqueIndexName].
  by rewrite H.
Qed.

Lemma rhnerrata_pins_real_index_witness :
  exists t',
    applyTableFilters rhnerrata_bare = Returns t' /\
    MainUniqueIndexName t' = "rhn_errata_adv_org_uq" /\
    UniqueIndexes t' = UniqueIndexes rhnerrata_bare /\
    RowModCallback t' = Some rhnerrata_callback /\
    Name t' = Name rhnerrata_bare /\ PKSequence t' = PKSequence rhnerrata_bare /\
    UnexportColumns t' = UnexportColumns rhnerrata_bare /\
    References t' = References rhnerrata_bare.
Proof. apply (rhnerrata_pins_real_index rhnerrata_bare). reflexivity. Defined.

(** ** Reference retargeting *)

Lemma foldl_retargetStep (acc refs : list Reference) :
  foldl retargetStep acc refs = acc ++ map retarget refs.
Proof.
  revert acc. induction refs as [| r refs IH]; intros acc; cbn [foldl map].
  - by rewrite app_nil_r.
  - rewrite IH. unfold retargetStep, retarget.
    destruct (Z.eqb _ 0); by rewrite <- app_assoc.
Qed.

Lemma retarget_regtoken (r : Reference) :
  TableName r = "rhnregtoken" -> retarget r = activationKeyReference.
Proof. intros H. unfold retarget. by rewrite Compare_zero, H. Qed.

Lemma retarget_other (r : Reference) :
  TableName r <> "rhnregtoken" -> retarget r = r.
Proof.
  intros H. unfold retarget. rewrite Compare_zero.
  by destruct (String.eqb_spec (TableName r) "rhnregtoken").
Qed.

Lemma map_retarget_id (refs : list Reference) :
  edgesTo "rhnregtoken" refs = [] -> map retarget refs = refs.
Proof.
  unfold edgesTo. induction refs as [| r refs IH]; [done | ].
  rewrite filter_cons. case_decide; [done | ].
  intros E. cbn [map]. by rewrite retarget_other, IH.
Qed.

Lemma filter_singleton_split {A} (P : A -> Prop) `{forall x, Decision (P x)}
    (l : list A) :
  length (filter P l) = 1 ->
  exists pre x post,
    l = pre ++ x :: post /\ P x /\ filter P pre = [] /\ filter P post = [].
Proof.
  induction l as [| a l IH]; [done | ].
  rewrite filter_cons. case_decide as Pa.
  - cbn [length]. intros E. exists [], a, l. repeat split; [done | ].
    destruct (filter P l); [done | discriminate E].
  - intros E. destruct (IH E) as (pre & x & post & -> & Px & Hpre & Hpost).
    exists (a :: pre), x, post. repeat split; try done.
    rewrite filter_cons. by case_decide.
Qed.

(** C6, as the code has it: on suseimageprofile, when exactly one edge of
    the input points at rhnregtoken, the edge at that position becomes
    the edge to rhnactivationkey with column mapping
    token_id -> reg_token_id, every other edge stays where it was, no
    edge to rhnregtoken is left, and the result has one more edge to
    rhnactivationkey than the input had. *)
Theorem suseimageprofile_retargets (t : Table) :
  Name t = "suseimageprofile" ->
  length (edgesTo "rhnregtoken" (References t)) = 1 ->
  exists t' pre r post,
    applyTableFilters t = Returns t' /\
    References t = pre ++ r :: post /\
    TableName r = "rhnregtoken" /\
    References t' = pre ++ activationKeyReference :: post /\
    TableName activationKeyReference = "rhnactivationkey" /\
    ColumnMapping activationKeyReference = Some {[ "token_id" := "reg_token_id" ]} /\
    edgesTo "rhnregtoken" (References t') = [] /\
    length (edgesTo "rhnactivationkey" (References t')) =
      S (length (edgesTo "rhnactivationkey" (References t))).
Proof.
  intros H One.
  destruct (filter_singleton_split _ _ One) as (pre & r & post & E & Hr & Hpre & Hpost).
  eexists _, pre, r, post. switch_on H.
  split; [reflexivity | ]. cbn [References setReferences setPKSequence].
  rewrite foldl_retargetStep, E, map_app. cbn [map app].
  rewrite (map_retarget_id pre), (map_retarget_id post), (retarget_regtoken r) by done.
  do 5 (split; [done | ]). split.
  - unfold edgesTo in *. rewrite filter_app, filter_cons, Hpre, Hpost.
    by case_decide.
  - unfold edgesTo. rewrite !filter_app, !filter_cons, !length_app.
    repeat case_decide; cbn [length]; try lia; exfalso.
    + rewrite Hr in *. discriminate.
    + rewrite Hr in *. discriminate.
    + auto.
Qed.

Lemma suseimageprofile_retargets_witness :
  exists t' pre r post,
    applyTableFilters suseimageprofile_schema = Returns t' /\
    References suseimageprofile_schema = pre ++ r :: post /\
    TableName r = "rhnregtoken" /\
    References t' = pre ++ activationKeyReference :: post /\
    TableName activationKeyReference = "rhnactivationkey" /\
    ColumnMapping activationKeyReference = Some {[ "token_id" := "reg_token_id" ]} /\
    edgesTo "rhnregtoken" (References t') = [] /\
    length (edgesTo "rhnactivationkey" (References t')) =
      S (length (edgesTo "rhnactivationkey" (References suseimageprofile_schema))).
Proof.
  apply (suseimageprofile_retargets suseimageprofile_schema); reflexivity.
Defined.

(** C6 as stated fails on [suseimageprofile_two_keys]: one edge to
    rhnregtoken in, two edges to rhnactivationkey out. *)
Lemma suseimageprofile_two_activation_keys :
  Name suseimageprofile_two_keys = "suseimageprofile" /\
  length (edgesTo "rhnregtoken" (References suseimageprofile_two_keys)) = 1 /\
  exists t',
    applyTableFilters suseimageprofile_two_keys = Returns t' /\
    References t' = [activationKeyReference; activationKeyReference] /\
    length (edgesTo "rhnactivationkey" (References t')) = 2.
Proof.
  split; [reflexivity | ]. split; [reflexivity | ].
  eexists. split; [reflexivity | ]. split; reflexivity.
Qed.

(** ** Applying the filters twice *)

Lemma retarget_idem (r : Reference) : retarget (retarget r) = retarget r.
Proof.
  destruct (decide (TableName r = "rhnregtoken")) as [e | ne].
  - by rewrite (retarget_regtoken r e).
  - by rewrite !(retarget_other r ne).
Qed.

Lemma foldl_retargetStep_idem (refs : list Reference) :
  foldl retargetStep [] (foldl retargetStep [] refs) = foldl retargetStep [] refs.
Proof.
  rewrite !foldl_retargetStep. cbn [app]. rewrite map_map.
  apply map_ext. intros r. apply retarget_idem.
Qed.

(** Every case but rhnpackageevr sets its fields to values that do not
    depend on what the fields held, so a second application changes
    nothing (a panic of the first application is a panic of both). *)
Lemma applyTableFilters_idem (t : Table) :
  Name t <> "rhnpackageevr" ->
  applyTableFilters t ≫= applyTableFilters = applyTableFilters t.
Proof.
  intros Hne. destruct (decide (Name t ∈ registryNames)) as [Hin | Hout].
  - destruct t as [n pk ui mu ux refs cb]. cbn [Name] in *.
    apply list_elem_of_In in Hin. cbn [In registryNames] in Hin.
    repeat (destruct Hin as [Hin | Hin]; [subst n | ]); try destruct Hin;
      try congruence.
    all: destruct ui as [m | ]; unfold applyTableFilters;
         cbn [Name String.eqb Ascii.eqb Bool.eqb andb]; run_case;
         cbn [Name String.eqb Ascii.eqb Bool.eqb andb]; run_case;
         rewrite ?insert_insert_eq, ?foldl_retargetStep_idem; reflexivity.
  - rewrite (applyTableFilters_fallthrough t Hout). cbn [mbind outcome_mbind outcome_bind].
    apply (applyTableFilters_fallthrough t Hout).
Qed.

(** The rhnpackageevr case appends to what the two index entries held. *)
Lemma rhnpackageevr_appends (t : Table) (m : gmap string UniqueIndex.t) :
  Name t = "rhnpackageevr" ->
  UniqueIndexes t = Some m ->
  exists t',
    applyTableFilters t = Returns t' /\
    Name t' = Name t /\
    PKSequence t' = "rhn_pkg_evr_seq" /\
    MainUniqueIndexName t' = MainUniqueIndexName t /\
    UnexportColumns t' = Some {[ "type" := true ]} /\
    References t' = References t /\
    RowModCallback t' = RowModCallback t /\
    is_Some (UniqueIndexes t') /\
    indexColumns t' "rhn_pe_v_r_e_uq" = indexColumns t "rhn_pe_v_r_e_uq" ++ ["type"] /\
    indexColumns t' "rhn_pe_v_r_uq" = indexColumns t "rhn_pe_v_r_uq" ++ ["type"] /\
    (forall k, k <> "rhn_pe_v_r_e_uq" -> k <> "rhn_pe_v_r_uq" ->
               mapaccess UniqueIndex.zero (UniqueIndexes t') k
               = mapaccess UniqueIndex.zero (UniqueIndexes t) k).
Proof.
  intros H Hm. destruct t as [n pk ui mu ux refs cb]. cbn [Name UniqueIndexes] in *.
  subst n ui. eexists. unfold applyTableFilters.
  cbn [Name String.eqb Ascii.eqb Bool.eqb andb]. run_case.
  split; [reflexivity | ]. unfold indexColumns. run_case.
  do 6 (split; [done | ]). split; [by eexists | ].
  split; [ | split].
  - rewrite lookup_insert_ne by done. by rewrite lookup_insert_eq.
  - rewrite lookup_insert_eq. cbn [default UniqueIndex.Columns].
    by rewrite lookup_insert_ne.
  - intros k H1 H2. by rewrite !lookup_insert_ne.
Qed.

(** C2, as the code has it: for every table name other than
    rhnpackageevr, so for every other registry entry, applying the
    filters twice gives the result of applying them once.  For
    rhnpackageevr, on an allocated index map, both applications return and
    agree on every field but UniqueIndexes, where each application appends
    one more "type" to the columns of rhn_pe_v_r_e_uq and of
    rhn_pe_v_r_uq and leaves the other entries alone. *)
Theorem applyTableFilters_twice (t : Table) :
  (Name t <> "rhnpackageevr" ->
   applyTableFilters t ≫= applyTableFilters = applyTableFilters t) /\
  (Name t = "rhnpackageevr" -> is_Some (UniqueIndexes t) ->
   exists t1 t2,
     applyTableFilters t = Returns t1 /\
     applyTableFilters t1 = Returns t2 /\
     Name t2 = Name t1 /\ PKSequence t2 = PKSequence t1 /\
     MainUniqueIndexName t2 = MainUniqueIndexName t1 /\
     UnexportColumns t2 = UnexportColumns t1 /\
     References t2 = References t1 /\
     RowModCallback t2 = RowModCallback t1 /\
     indexColumns t2 "rhn_pe_v_r_e_uq" = indexColumns t1 "rhn_pe_v_r_e_uq" ++ ["type"] /\
     indexColumns t2 "rhn_pe_v_r_uq" = indexColumns t1 "rhn_pe_v_r_uq" ++ ["type"] /\
     (forall k, k <> "rhn_pe_v_r_e_uq" -> k <> "rhn_pe_v_r_uq" ->
                mapaccess UniqueIndex.zero (UniqueIndexes t2) k
                = mapaccess UniqueIndex.zero (UniqueIndexes t1) k)).
Proof.
  split; [apply applyTableFilters_idem | ].
  intros H [m Hm].
  destruct (rhnpackageevr_appends t m H Hm)
    as (t1 & E1 & N1 & P1 & M1 & U1 & R1 & C1 & [m1 Hm1] & _).
  assert (H1 : Name t1 = "rhnpackageevr") by congruence.
  destruct (rhnpackageevr_appends t1 m1 H1 Hm1)
    as (t2 & E2 & N2 & P2 & M2 & U2 & R2 & C2 & _ & A2 & B2 & O2).
  exists t1, t2. do 2 (split; [done | ]).
  repeat split; try done; congruence.
Qed.

Lemma applyTableFilters_twice_witness :
  applyTableFilters rhnpackage_bare ≫= applyTableFilters
    = applyTableFilters rhnpackage_bare /\
  exists t1 t2,
    applyTableFilters rhnpackageevr_schema = Returns t1 /\
    applyTableFilters t1 = Returns t2 /\
    Name t2 = Name t1 /\ PKSequence t2 = PKSequence t1 /\
    MainUniqueIndexName t2 = MainUniqueIndexName t1 /\
    UnexportColumns t2 = UnexportColumns t1 /\
    References t2 = References t1 /\
    RowModCallback t2 = RowModCallback t1 /\
    indexColumns t2 "rhn_pe_v_r_e_uq" = indexColumns t1 "rhn_pe_v_r_e_uq" ++ ["type"] /\
    indexColumns t2 "rhn_pe_v_r_uq" = indexColumns t1 "rhn_pe_v_r_uq" ++ ["type"] /\
    (forall k, k <> "rhn_pe_v_r_e_uq" -> k <> "rhn_pe_v_r_uq" ->
               mapaccess UniqueIndex.zero (UniqueIndexes t2) k
               = mapaccess UniqueIndex.zero (UniqueIndexes t1) k).
Proof.
  split.
  - apply (proj1 (applyTableFilters_twice rhnpackage_bare)). discriminate.
  - apply (proj2 (applyTableFilters_twice rhnpackageevr_schema)).
    + reflexivity.
    + eexists. reflexivity.
Defined.

(** On the rhnpackageevr table of the schema the second application is
    not a no-op: after one application rhn_pe_v_r_uq has the columns
    version, release, type; after two it has version, release, type,
    type. *)
Lemma rhnpackageevr_not_idempotent :
  Name rhnpackageevr_schema ∈ registryNames /\
  (exists t1 t2,
     applyTableFilters rhnpackageevr_schema = Returns t1 /\
     applyTableFilters t1 = Returns t2 /\
     indexColumns t1 "rhn_pe_v_r_uq" = ["version"; "release"; "type"] /\
     indexColumns t2 "rhn_pe_v_r_uq" = ["version"; "release"; "type"; "type"]) /\
  applyTableFilters rhnpackageevr_schema ≫= applyTableFilters
    <> applyTableFilters rhnpackageevr_schema.
Proof.
  split; [ apply in_registryNames; cbn [In registryNames rhnpackageevr_schema Name]; tauto | ].
  split.
  - do 2 eexists. split; [reflexivity | ]. split; [reflexivity | ].
    split; reflexivity.
  - intros E.
    apply (f_equal (fun o => match o with
                             | Returns t => indexColumns t "rhn_pe_v_r_uq"
                             | Panics _ => []
                             end)) in E.
    vm_compute in E. discriminate E.
Qed.

(** ** The matcher against the language of a pattern *)

Lemma Byte_eqb_spec (a b : byte) : reflect (a = b) (Byte.eqb a b).
Proof.
  destruct (Byte.eqb a b) eqn:E; constructor.
  - by apply Byte.byte_dec_bl.
  - by apply Byte.eqb_false.
Qed.

Lemma greedyPlus_sound (c : byte) (k : list byte -> option (list byte))
    (src rest : list byte) :
  greedyPlus c k src = Some rest ->
  exists run src',
    run <> [] /\ Forall (fun b => b <> c) run /\ src = run ++ src' /\
    k src' = Some rest.
Proof.
  revert rest. induction src as [| b src IH]; intros rest; cbn [greedyPlus]; [done | ].
  destruct (Byte_eqb_spec b c) as [-> | ne]; [done | ].
  destruct (greedyPlus c k src) as [rest' | ] eqn:E.
  - intros [= <-]. destruct (IH rest' eq_refl) as (run & src' & _ & Hrun & -> & Hk).
    exists (b :: run), src'. repeat split; try done. by constructor.
  - intros Hk. exists [b], src. repeat split; try done. by repeat constructor.
Qed.

Lemma greedyPlus_complete (c : byte) (k : list byte -> option (list byte))
    (run rest : list byte) :
  run <> [] -> Forall (fun b => b <> c) run -> is_Some (k rest) ->
  is_Some (greedyPlus c k (run ++ rest)).
Proof.
  intros Hne Hrun Hk. induction Hrun as [| b run Hb Hrun IH]; [done | ].
  cbn [app greedyPlus]. destruct (Byte_eqb_spec b c) as [-> | _]; [done | ].
  destruct run as [| b' run].
  - cbn [app]. by destruct (greedyPlus c k rest).
  - destruct (IH ltac:(done)) as [r ->]. by eexists.
Qed.

(** What the matcher consumes is a word of the pattern. *)
Lemma matchHere_sound (re : regexp) (src rest : list byte) :
  matchHere re src = Some rest ->
  exists m, src = m ++ rest /\ matches re m.
Proof.
  revert src rest. induction re as [| a re IH]; intros src rest; cbn [matchHere].
  - intros [= ->]. exists []. split; [done | constructor].
  - destruct a as [c | c].
    + destruct src as [| b src]; [done | ].
      destruct (Byte_eqb_spec b c) as [-> | ne]; [ | done].
      intros H. destruct (IH _ _ H) as (m & -> & Hm).
      exists (c :: m). split; [done | by constructor].
    + intros H. destruct (greedyPlus_sound _ _ _ _ H) as (run & src' & Hne & Hrun & -> & Hk).
      destruct (IH _ _ Hk) as (m & -> & Hm).
      exists (run ++ m). split; [by rewrite app_assoc | by constructor].
Qed.

(** Where a word of the pattern starts, the matcher finds a match. *)
Lemma matchHere_complete (re : regexp) (m tail : list byte) :
  matches re m -> is_Some (matchHere re (m ++ tail)).
Proof.
  intros Hm. revert tail.
  induction Hm as [| c re m Hm IH | c re run m Hne Hrun Hm IH]; intros tail;
    cbn [matchHere app].
  - by eexists.
  - destruct (Byte_eqb_spec c c); [apply IH | done].
  - rewrite <- app_assoc. by apply greedyPlus_complete.
Qed.

Lemma matches_nonempty (re : regexp) (m : list byte) :
  re <> [] -> matches re m -> m <> [].
Proof.
  intros Hre Hm. destruct Hm as [| c re m Hm | c re run m Hne Hrun Hm]; try done.
  by destruct run.
Qed.

Lemma matchHere_consumes (re : regexp) (src rest : list byte) :
  re <> [] -> matchHere re src = Some rest -> length rest < length src.
Proof.
  intros Hre H. destruct (matchHere_sound _ _ _ H) as (m & -> & Hm).
  apply (matches_nonempty _ _ Hre) in Hm. rewrite length_app.
  destruct m; [done | cbn [length]; lia].
Qed.

(** ** ReplaceAll: the fuel is enough *)

Lemma replaceAllFrom_fuel (re : regexp) (repl : list byte) (f1 f2 : nat)
    (src : list byte) :
  re <> [] -> length src <= f1 -> length src <= f2 ->
  replaceAllFrom f1 re src repl = replaceAllFrom f2 re src repl.
Proof.
  intros Hre. revert f2 src. induction f1 as [| f1 IH]; intros f2 src H1 H2.
  - destruct src; [ | cbn [length] in H1; lia]. by destruct f2.
  - destruct f2 as [| f2].
    + destruct src; [done | cbn [length] in H2; lia].
    + cbn [replaceAllFrom]. destruct src as [| b src]; [done | ].
      cbn [length] in H1, H2.
      destruct (matchHere re (b :: src)) as [rest | ] eqn:E.
      * apply (matchHere_consumes _ _ _ Hre) in E. cbn [length] in E.
        f_equal. apply IH; lia.
      * f_equal. apply IH; lia.
Qed.

Lemma ReplaceAll_nil (re : regexp) (repl : list byte) :
  ReplaceAll re [] repl = [].
Proof. reflexivity. Qed.

Lemma ReplaceAll_cons (re : regexp) (repl : list byte) (b : byte)
    (src : list byte) :
  re <> [] ->
  ReplaceAll re (b :: src) repl =
    match matchHere re (b :: src) with
    | Some rest => repl ++ ReplaceAll re rest repl
    | None => b :: ReplaceAll re src repl
    end.
Proof.
  intros Hre. unfold ReplaceAll. cbn [length replaceAllFrom].
  destruct (matchHere re (b :: src)) as [rest | ] eqn:E; [ | done].
  apply (matchHere_consumes _ _ _ Hre) in E. cbn [length] in E.
  f_equal. apply replaceAllFrom_fuel; [done | lia | lia].
Qed.

(** ** What replacing every occurrence means *)

Lemma ReplaceAll_rewritten (re : regexp) (repl src : list byte) :
  re <> [] -> rewritten re repl src (ReplaceAll re src repl).
Proof.
  intros Hre. remember (length src) as n eqn:Hn.
  revert src Hn. induction (lt_wf n) as [n _ IH]. intros src ->.
  destruct src as [| b src]; [constructor | ].
  rewrite ReplaceAll_cons by done.
  destruct (matchHere re (b :: src)) as [rest | ] eqn:E.
  - pose proof (matchHere_consumes _ _ _ Hre E) as Hlt.
    destruct (matchHere_sound _ _ _ E) as (m & -> & Hm).
    constructor; [done | ]. by eapply IH.
  - constructor.
    + intros m tail Hm Heq.
      destruct (matchHere_complete re m tail Hm) as [r Hr].
      rewrite <- Heq in Hr. congruence.
    + eapply IH; [ | reflexivity]. cbn [length]. lia.
Qed.

(** ** The words of the os-images pattern *)

(** The words of [osImagesPattern] are [https://<host>/os-images/] with
    a non-empty [<host>] free of ['/']. *)
Lemma osImagesPattern_words (m : list byte) :
  matches osImagesPattern m <->
  exists host,
    host <> [] /\ Forall (fun b => b <> slash) host /\
    m = bytes "https://" ++ host ++ bytes "/os-images/".
Proof.
  split.
  - intros H. unfold osImagesPattern in H. cbn in H.
    repeat match goal with
    | H : matches (_ :: _) _ |- _ => inversion H; subst; clear H
    | H : matches [] _ |- _ => inversion H; subst; clear H
    end.
    exists run. split; [done | ]. split; [done | reflexivity].
  - intros (host & Hne & Hhost & ->). unfold osImagesPattern. cbn.
    do 8 constructor. constructor; [done | done | ]. repeat constructor.
Qed.

Lemma split_at_first {A} (c : A) (h1 h2 x1 x2 : list A) :
  Forall (fun b => b <> c) h1 -> Forall (fun b => b <> c) h2 ->
  h1 ++ c :: x1 = h2 ++ c :: x2 -> h1 = h2 /\ x1 = x2.
Proof.
  intros H1. revert h2. induction H1 as [| a h1 Ha H1 IH]; intros h2 H2 E.
  - destruct H2 as [| b h2 Hb H2]; cbn [app] in E.
    + by injection E as ->.
    + injection E as <- _. done.
  - destruct H2 as [| b h2 Hb H2]; cbn [app] in E.
    + injection E as -> _. done.
    + injection E as -> E. destruct (IH _ H2 E) as [-> ->]. done.
Qed.

(** Two words of the pattern that start at the same place are the same
    word: occurrences are determined by where they start. *)
Lemma osImagesPattern_unambiguous (m1 m2 r1 r2 : list byte) :
  matches osImagesPattern m1 -> matches osImagesPattern m2 ->
  m1 ++ r1 = m2 ++ r2 -> m1 = m2 /\ r1 = r2.
Proof.
  intros (h1 & _ & H1 & ->)%osImagesPattern_words
         (h2 & _ & H2 & ->)%osImagesPattern_words E.
  rewrite <- !app_assoc in E. apply app_inv_head in E.
  change (bytes "/os-images/") with (slash :: bytes "os-images/") in *.
  cbn [app] in E.
  destruct (split_at_first _ _ _ _ _ H1 H2 E) as [-> E'].
  split; [done | ]. by apply app_inv_head in E'.
Qed.

(** So the relation [rewritten] has one result per input. *)
Lemma rewritten_osImages_functional (repl src d1 d2 : list byte) :
  rewritten osImagesPattern repl src d1 ->
  rewritten osImagesPattern repl src d2 -> d1 = d2.
Proof.
  assert (Hre : osImagesPattern <> []) by done.
  intros H1. revert d2.
  induction H1 as [| m rest dst Hm H1 IH | b rest dst Hb H1 IH]; intros d2 H2.
  - inversion H2 as [| m rest dst Hm _ E | ]; subst; [done | ].
    apply (matches_nonempty _ _ Hre) in Hm. by destruct m.
  - inversion H2 as [E | m' rest' dst' Hm' H2' E | b rest' dst' Hb H2' E]; subst.
    + apply (matches_nonempty _ _ Hre) in Hm. by destruct m.
    + destruct (osImagesPattern_unambiguous _ _ _ _ Hm' Hm E) as [-> ->].
      f_equal. by apply IH.
    + exfalso. by apply (Hb m rest).
  - inversion H2 as [| m' rest' dst' Hm' H2' E | b' rest' dst' Hb' H2' ]; subst.
    + exfalso. by apply (Hb m' rest').
    + f_equal. by apply IH.
Qed.

(** ** The rhnerrata callback *)

Lemma rhnerrataStep_middle (pre rest : list RowDataStructure)
    (row : RowDataStructure) :
  rhnerrataStep (pre ++ row :: rest) (length pre)
  = (pre ++ [resetSeverity row]) ++ rest.
Proof.
  unfold rhnerrataStep, resetSeverity.
  rewrite list_lookup_middle by done. rewrite Compare_zero.
  rewrite <- app_assoc. cbn [app].
  destruct (String.eqb (ColumnName row) "severity_id"); [ | done].
  rewrite insert_app_r_alt by done. by rewrite Nat.sub_diag.
Qed.

Lemma rhnerrata_loop (pre rest : list RowDataStructure) :
  foldl rhnerrataStep (pre ++ rest) (seq (length pre) (length rest))
  = pre ++ (resetSeverity <$> rest).
Proof.
  revert pre. induction rest as [| row rest IH]; intros pre.
  - cbn. by rewrite app_nil_r.
  - cbn [length seq foldl]. rewrite rhnerrataStep_middle.
    replace (S (length pre)) with (length (pre ++ [resetSeverity row]))
      by (rewrite length_app; cbn [length]; lia).
    rewrite IH. by rewrite <- app_assoc.
Qed.

Lemma rhnerrataRowMod_eq (value : list RowDataStructure) (t : Table) :
  rhnerrataRowMod value t = Returns (resetSeverity <$> value).
Proof. unfold rhnerrataRowMod. f_equal. apply (rhnerrata_loop [] value). Qed.

(** C5: on a row with a column named severity_id, the rhnerrata callback
    returns a row in which that column holds the column's declared
    initial value, whatever it held before; the row keeps its length and
    its column names in their order, and every column with another name
    is returned as it came. *)
Theorem rhnerrata_resets_severity (value : list RowDataStructure) (t : Table)
    (i : nat) (c : RowDataStructure) :
  value !! i = Some c ->
  ColumnName c = "severity_id" ->
  exists out c',
    rhnerrataRowMod value t = Returns out /\
    out !! i = Some c' /\
    Value c' = GetInitialValue c /\
    ColumnName c' = ColumnName c /\ ColumnType c' = ColumnType c /\
    GetInitialValue c' = GetInitialValue c /\
    length out = length value /\
    ColumnName <$> out = ColumnName <$> value /\
    (forall j d, value !! j = Some d -> ColumnName d <> "severity_id" ->
                 out !! j = Some d).
Proof.
  intros Hi Hc. exists (resetSeverity <$> value), (resetSeverity c).
  split; [apply rhnerrataRowMod_eq | ].
  split; [by rewrite list_lookup_fmap, Hi | ].
  unfold resetSeverity at 1 2 3 4. rewrite Hc. cbn [String.eqb Ascii.eqb Bool.eqb andb].
  do 4 (split; [done | ]). split; [by rewrite length_fmap | ]. split.
  - rewrite <- list_fmap_compose. apply list_fmap_ext. intros _ d _.
    unfold compose, resetSeverity. by destruct (String.eqb _ _).
  - intros j d Hj Hd. rewrite list_lookup_fmap, Hj. cbn. f_equal.
    unfold resetSeverity. by destruct (String.eqb_spec (ColumnName d) "severity_id").
Qed.

Lemma rhnerrata_resets_severity_witness :
  exists out c',
    rhnerrataRowMod errataRow rhnerrata_bare = Returns out /\
    out !! 2 = Some c' /\
    Value c' = Nil /\
    ColumnName c' = "severity_id" /\ ColumnType c' = "NUMERIC" /\
    GetInitialValue c' = Nil /\
    length out = 3 /\
    ColumnName <$> out = ColumnName <$> errataRow /\
    (forall j d, errataRow !! j = Some d -> ColumnName d <> "severity_id" ->
                 out !! j = Some d).
Proof.
  apply (rhnerrata_resets_severity errataRow rhnerrata_bare 2
           {| ColumnName := "severity_id"; ColumnType := "NUMERIC";
              initialValue := Nil; Value := Numeric 3 |}); reflexivity.
Defined.

(** Without a column named severity_id the callback returns the row as
    it came. *)
Lemma rhnerrata_absent_column (value : list RowDataStructure) (t : Table) :
  Forall (fun c => ColumnName c <> "severity_id") value ->
  rhnerrataRowMod value t = Returns value.
Proof.
  intros H. rewrite rhnerrataRowMod_eq. f_equal.
  induction H as [| c value Hc H IH]; [done | ].
  cbn [fmap list_fmap]. f_equal; [ | apply IH].
  unfold resetSeverity. by destruct (String.eqb_spec (ColumnName c) "severity_id").
Qed.

(** ** The susesaltpillar callback *)

Lemma pillarScan_typed (columns : list RowDataStructure) (i : nat)
    (b : bool) (p : nat) :
  forallb categoryIsText columns = true ->
  pillarScan i columns b p
  = Returns (b || existsb isImageCategory columns, lastPillar i columns p).
Proof.
  revert i b p. induction columns as [| c columns IH]; intros i b p.
  - intros _. cbn. by rewrite orb_false_r.
  - cbn [forallb]. intros [Hc H]%andb_prop.
    cbn [pillarScan existsb lastPillar]. rewrite !Compare_zero.
    unfold categoryIsText, isImageCategory, isPillar in *.
    destruct (String.eqb_spec (ColumnName c) "category") as [e | ne].
    + rewrite e. destruct (Value c) as [ | s | | | | ]; try discriminate Hc.
      cbn [assertString mbind mret outcome_mbind outcome_mret outcome_bind
           andb String.eqb Ascii.eqb Bool.eqb].
      destruct (HasPrefix s "Image"); rewrite (IH _ _ _ H).
      * by rewrite !orb_true_r.
      * done.
    + cbn [mbind mret outcome_mbind outcome_mret outcome_bind andb orb].
      destruct (String.eqb (ColumnName c) "pillar"); by rewrite (IH _ _ _ H).
Qed.

Lemma pillarScan_untyped (columns : list RowDataStructure) (i : nat)
    (b : bool) (p : nat) :
  forallb categoryIsText columns = false ->
  pillarScan i columns b p = Panics InterfaceConversion.
Proof.
  revert i b p. induction columns as [| c columns IH]; intros i b p; [done | ].
  cbn [forallb pillarScan]. rewrite !Compare_zero. unfold categoryIsText.
  destruct (String.eqb_spec (ColumnName c) "category") as [e | ne].
  - rewrite e. destruct (Value c) as [ | s | | | | ]; try done.
    cbn [assertString mbind mret outcome_mbind outcome_mret outcome_bind
         andb String.eqb Ascii.eqb Bool.eqb].
    intros H. destruct (HasPrefix s "Image"); by rewrite (IH _ _ _ H).
  - cbn [mbind mret outcome_mbind outcome_mret outcome_bind andb].
    intros H. destruct (String.eqb (ColumnName c) "pillar"); by rewrite (IH _ _ _ H).
Qed.

Lemma lastPillar_none (columns : list RowDataStructure) (i p : nat) :
  filter (fun c => isPillar c = true) columns = [] ->
  lastPillar i columns p = p.
Proof.
  revert i. induction columns as [| c columns IH]; intros i; [done | ].
  rewrite filter_cons. cbn [lastPillar]. case_decide as Hc; [done | ].
  apply not_true_is_false in Hc. rewrite Hc. apply IH.
Qed.

Lemma lastPillar_split (pre post : list RowDataStructure)
    (c : RowDataStructure) (i p : nat) :
  isPillar c = true ->
  filter (fun c => isPillar c = true) post = [] ->
  lastPillar i (pre ++ c :: post) p = i + length pre.
Proof.
  intros Hc Hpost. revert i p. induction pre as [| d pre IH]; intros i p.
  - cbn [app lastPillar length]. rewrite Hc, lastPillar_none by done. lia.
  - cbn [app lastPillar length]. rewrite IH. lia.
Qed.

(** The decomposition of a row at its last column named pillar. *)
Lemma last_pillar_split (value : list RowDataStructure) (c : RowDataStructure) :
  last (filter (fun c => isPillar c = true) value) = Some c ->
  exists pre post,
    value = pre ++ c :: post /\ isPillar c = true /\
    filter (fun c => isPillar c = true) post = [].
Proof.
  induction value as [| d value IH]; [done | ].
  rewrite filter_cons.
  destruct (last (filter (fun c => isPillar c = true) value)) as [c' | ] eqn:E.
  - intros H. assert (c' = c) as ->.
    { case_decide; [ | congruence].
      destruct (filter _ value) as [| x l]; [done | ].
      rewrite last_cons_cons in H. congruence. }
    destruct (IH eq_refl) as (pre & post & -> & Hc & Hpost).
    by exists (d :: pre), post.
  - apply last_None in E. rewrite E. case_decide as Hd; [ | done].
    intros [= ->]. by exists [], value.
Qed.

(** The loop's index points at the selected column. *)
Lemma lastPillar_selected (value : list RowDataStructure) :
  value !! lastPillar 0 value 0 = selectedColumn value.
Proof.
  unfold selectedColumn.
  destruct (last (filter (fun c => isPillar c = true) value)) as [c | ] eqn:E.
  - destruct (last_pillar_split _ _ E) as (pre & post & -> & Hc & Hpost).
    rewrite lastPillar_split by done. by rewrite list_lookup_middle.
  - apply last_None in E. rewrite lastPillar_none by done.
    by rewrite head_lookup.
Qed.

(** The callback, by cases on what the scan finds. *)
Lemma susesaltpillarRowMod_eq (value : list RowDataStructure) (t : Table) :
  susesaltpillarRowMod value t =
    if forallb categoryIsText value then
      if existsb isImageCategory value then
        match value !! lastPillar 0 value 0 with
        | None => Panics IndexOutOfRange
        | Some column =>
            match Value column with
            | Binary src =>
                Returns (<[lastPillar 0 value 0 :=
                           setValue column
                             (Binary (ReplaceAll osImagesPattern src
                                        (bytes "https://{SERVER_FQDN}/os-images/")))]>
                         value)
            | _ => Panics InterfaceConversion
            end
        end
      else Returns value
    else Panics InterfaceConversion.
Proof.
  unfold susesaltpillarRowMod.
  destruct (forallb categoryIsText value) eqn:T.
  - rewrite (pillarScan_typed _ _ _ _ T).
    cbn [mbind mret outcome_mbind outcome_mret outcome_bind orb].
    destruct (existsb isImageCategory value); [ | done].
    destruct (value !! lastPillar 0 value 0) as [column | ]; [ | done].
    by destruct (Value column).
  - by rewrite (pillarScan_untyped _ _ _ _ T).
Qed.

Lemma selectedColumn_is_Some (value : list RowDataStructure) :
  value <> [] -> is_Some (selectedColumn value).
Proof.
  intros H. unfold selectedColumn.
  destruct (last _); [by eexists | ]. destruct value; [done | by eexists].
Qed.

(** C10: the susesaltpillar callback returns a row exactly on the rows
    that meet the typing [pillarTyped]; on every other row one of its two
    type assertions panics. *)
Theorem susesaltpillar_returns_iff_typed (value : list RowDataStructure)
    (t : Table) :
  (pillarTyped value = true ->
   exists out, susesaltpillarRowMod value t = Returns out) /\
  (pillarTyped value = false ->
   susesaltpillarRowMod value t = Panics InterfaceConversion).
Proof.
  rewrite susesaltpillarRowMod_eq, lastPillar_selected. unfold pillarTyped.
  destruct (forallb categoryIsText value); cbn [andb]; [ | by split].
  destruct (existsb isImageCategory value) eqn:I; [ | split; [by eexists | done]].
  assert (Hne : value <> []) by (intros ->; discriminate I).
  destruct (selectedColumn_is_Some value Hne) as [c ->].
  destruct (Value c); split; try done; by eexists.
Qed.

Lemma susesaltpillar_returns_iff_typed_witness :
  (exists out, susesaltpillarRowMod imagePillarRow susesaltpillar_bare = Returns out) /\
  susesaltpillarRowMod numericCategoryRow susesaltpillar_bare
    = Panics InterfaceConversion /\
  susesaltpillarRowMod textPillarRow susesaltpillar_bare
    = Panics InterfaceConversion.
Proof.
  split; [ | split].
  - apply (proj1 (susesaltpillar_returns_iff_typed imagePillarRow susesaltpillar_bare)).
    reflexivity.
  - apply (proj2 (susesaltpillar_returns_iff_typed numericCategoryRow susesaltpillar_bare)).
    reflexivity.
  - apply (proj2 (susesaltpillar_returns_iff_typed textPillarRow susesaltpillar_bare)).
    reflexivity.
Defined.

(** ** A row without a column named pillar *)

(** When a category starts with Image and no column is named pillar,
    [pillarColumn] still holds its initial 0 and the rewrite goes to the
    first column of the row, whatever its name. *)
Lemma susesaltpillar_absent_pillar (value : list RowDataStructure) (t : Table) :
  forallb categoryIsText value = true ->
  existsb isImageCategory value = true ->
  Forall (fun c => ColumnName c <> "pillar") value ->
  exists first rest,
    value = first :: rest /\
    susesaltpillarRowMod value t =
      match Value first with
      | Binary src =>
          Returns (setValue first
                     (Binary (ReplaceAll osImagesPattern src
                                (bytes "https://{SERVER_FQDN}/os-images/")))
                   :: rest)
      | _ => Panics InterfaceConversion
      end.
Proof.
  intros T I P. rewrite susesaltpillarRowMod_eq, T, I.
  assert (E : filter (fun c => isPillar c = true) value = []).
  { clear T I. induction P as [| c value Hc P IH]; [done | ].
    rewrite filter_cons. case_decide as Hp; [ | done].
    unfold isPillar in Hp. by apply String.eqb_eq in Hp. }
  rewrite lastPillar_none by done.
  destruct value as [| first rest]; [discriminate I | ].
  exists first, rest. split; [done | ]. cbn [lookup list_lookup].
  by destruct (Value first).
Qed.

(** C3: a callback should return the row unmodified when the column it
    targets is absent.  The rhnerrata callback does so on a row without
    severity_id.  The susesaltpillar callback does not: neither of these
    two rows has a column named pillar, yet on the first the callback
    rewrites the column named data, and on the second it panics in the
    []byte assertion on the text of the category column. *)
Theorem susesaltpillar_absent_pillar_not_closed :
  Forall (fun c => ColumnName c <> "pillar") pillarlessRow /\
  susesaltpillarRowMod pillarlessRow susesaltpillar_bare =
    Returns
      [ {| ColumnName := "data"; ColumnType := "BYTEA"; initialValue := Nil;
           Value := Binary (bytes "https://{SERVER_FQDN}/os-images/foo.raw") |};
        {| ColumnName := "category"; ColumnType := "VARCHAR"; initialValue := Nil;
           Value := Text "Image-Something" |} ] /\
  susesaltpillarRowMod pillarlessRow susesaltpillar_bare <> Returns pillarlessRow /\
  Forall (fun c => ColumnName c <> "pillar") categoryOnlyRow /\
  susesaltpillarRowMod categoryOnlyRow susesaltpillar_bare
    = Panics InterfaceConversion /\
  rhnerrataRowMod categoryOnlyRow rhnerrata_bare = Returns categoryOnlyRow.
Proof.
  split; [by repeat constructor | ].
  split; [by vm_compute | ].
  split; [by vm_compute | ].
  split; [by repeat constructor | ].
  split; by vm_compute.
Qed.

(** ** Rewriting the URLs of an image pillar *)




(** The rewrite on sample contents: the spec's URL, several occurrences
    with ports and other text between them, and near misses (another
    scheme, an empty host, a host followed by another path). *)
Example ReplaceAll_spec_url :
  ReplaceAll osImagesPattern (bytes "https://old-host.example/os-images/foo.raw")
    (bytes "https://{SERVER_FQDN}/os-images/")
  = bytes "https://{SERVER_FQDN}/os-images/foo.raw".
Proof. by vm_compute. Qed.

Example ReplaceAll_every_occurrence :
  ReplaceAll osImagesPattern
    (bytes "a: https://h1/os-images/x b: https://h2.example:8443/os-images/y https://h1/os-images/")
    (bytes "https://{SERVER_FQDN}/os-images/")
  = bytes "a: https://{SERVER_FQDN}/os-images/x b: https://{SERVER_FQDN}/os-images/y https://{SERVER_FQDN}/os-images/".
Proof. by vm_compute. Qed.

Example ReplaceAll_near_misses :
  ReplaceAll osImagesPattern
    (bytes "http://h/os-images/ https:///os-images/ https://h/p/os-images/ https://https://h/os-images/")
    (bytes "https://{SERVER_FQDN}/os-images/")
  = bytes "http://h/os-images/ https:///os-images/ https://h/p/os-images/ https://https://{SERVER_FQDN}/os-images/".
Proof. by vm_compute. Qed.

(** ** Determinism of the callbacks *)

Lemma sameContent_rows (v1 v2 : list RowDataStructure) :
  content <$> v1 = content <$> v2 -> Forall2 sameContent v1 v2.
Proof.
  revert v2. induction v1 as [| a v1 IH]; intros [| b v2] E; try done.
  cbn [fmap list_fmap] in E. constructor.
  - unfold sameContent. congruence.
  - apply IH. congruence.
Qed.

Lemma sameContent_fields (a b : RowDataStructure) :
  sameContent a b ->
  ColumnName a = ColumnName b /\ Value a = Value b /\
  GetInitialValue a = GetInitialValue b.
Proof. unfold sameContent, content. by intros [= -> -> ->]. Qed.

Lemma sameContent_forallb (f : RowDataStructure -> bool)
    (v1 v2 : list RowDataStructure) :
  (forall a b, sameContent a b -> f a = f b) ->
  Forall2 sameContent v1 v2 -> forallb f v1 = forallb f v2.
Proof.
  intros Hf. induction 1 as [| a b l1 l2 Hab _ IH]; [done | ].
  cbn [forallb]. by rewrite (Hf a b Hab), IH.
Qed.

Lemma sameContent_existsb (f : RowDataStructure -> bool)
    (v1 v2 : list RowDataStructure) :
  (forall a b, sameContent a b -> f a = f b) ->
  Forall2 sameContent v1 v2 -> existsb f v1 = existsb f v2.
Proof.
  intros Hf. induction 1 as [| a b l1 l2 Hab _ IH]; [done | ].
  cbn [existsb]. by rewrite (Hf a b Hab), IH.
Qed.

Lemma sameContent_lastPillar (v1 v2 : list RowDataStructure) (i p : nat) :
  Forall2 sameContent v1 v2 -> lastPillar i v1 p = lastPillar i v2 p.
Proof.
  intros same. revert i p.
  induction same as [| a b l1 l2 Hab _ IH]; intros i p; [done | ].
  cbn [lastPillar]. unfold isPillar.
  destruct (sameContent_fields a b Hab) as (-> & _ & _). apply IH.
Qed.

Lemma sameContent_categoryIsText (a b : RowDataStructure) :
  sameContent a b -> categoryIsText a = categoryIsText b.
Proof.
  intros (N & V & _)%sameContent_fields. unfold categoryIsText. by rewrite N, V.
Qed.

Lemma sameContent_isImageCategory (a b : RowDataStructure) :
  sameContent a b -> isImageCategory a = isImageCategory b.
Proof.
  intros (N & V & _)%sameContent_fields. unfold isImageCategory. by rewrite N, V.
Qed.

Lemma sameContent_resetSeverity (a b : RowDataStructure) :
  sameContent a b -> sameContent (resetSeverity a) (resetSeverity b).
Proof.
  intros H. destruct (sameContent_fields a b H) as (N & V & I).
  unfold resetSeverity. rewrite N. destruct (String.eqb _ _); [ | done].
  unfold sameContent, content, GetInitialValue in *. cbn. congruence.
Qed.

Lemma sameContent_content (v1 v2 : list RowDataStructure) :
  Forall2 sameContent v1 v2 -> content <$> v1 = content <$> v2.
Proof. induction 1 as [| a b l1 l2 Hab _ IH]; [done | ]. cbn. by f_equal. Qed.

(** The two callbacks of this file are functions of the row's contents
    alone. *)
Lemma callbacks_read_content (f : funcval)
    (callback : list RowDataStructure -> Table -> outcome (list RowDataStructure))
    (v1 v2 : list RowDataStructure) (t1 t2 : Table) :
  callRowMod f = Some callback ->
  content <$> v1 = content <$> v2 ->
  fmap (M := outcome) (fmap content) (callback v1 t1)
  = fmap (M := outcome) (fmap content) (callback v2 t2).
Proof.
  intros Hf E. apply sameContent_rows in E.
  destruct f; cbn [callRowMod] in Hf; try discriminate Hf; injection Hf as <-.
  - rewrite !rhnerrataRowMod_eq. cbn [fmap outcome_fmap]. f_equal.
    apply sameContent_content.
    induction E as [| a b l1 l2 Hab _ IH]; [constructor | ].
    cbn. constructor; [by apply sameContent_resetSeverity | apply IH].
  - rewrite !susesaltpillarRowMod_eq.
    rewrite (sameContent_forallb _ v1 v2 sameContent_categoryIsText E).
    rewrite (sameContent_existsb _ v1 v2 sameContent_isImageCategory E).
    rewrite (sameContent_lastPillar v1 v2 0 0 E).
    destruct (forallb categoryIsText v2); [ | done].
    destruct (existsb isImageCategory v2);
      [ | cbn [fmap outcome_fmap]; f_equal; by apply sameContent_content].
    destruct (v1 !! lastPillar 0 v2 0) as [c1 | ] eqn:E1.
    + destruct (Forall2_lookup_l _ _ _ _ _ E E1) as (c2 & E2 & Hc).
      rewrite E2. destruct (sameContent_fields _ _ Hc) as (N & V & I).
      rewrite V. destruct (Value c2); try done.
      cbn [fmap outcome_fmap]. f_equal. rewrite !list_fmap_insert.
      rewrite (sameContent_content _ _ E). f_equal.
      unfold content, GetInitialValue in *. cbn. congruence.
    + assert (E2 : v2 !! lastPillar 0 v2 0 = None).
      { apply lookup_ge_None. apply lookup_ge_None in E1.
        by rewrite <- (Forall2_length _ _ _ E). }
      by rewrite E2.
Qed.

(** What the switch can leave in RowModCallback of a table that came
    without one. *)
Lemma applyTableFilters_installs (t t' : Table) (f : funcval) :
  applyTableFilters t = Returns t' ->
  RowModCallback t = None ->
  RowModCallback t' = Some f ->
  f = rhnerrata_callback \/ f = susesaltpillar_callback.
Proof.
  intros E N F. destruct (decide (Name t ∈ registryNames)) as [Hin | Hout].
  - destruct t as [n pk ui mu ux refs cb]. cbn [Name RowModCallback] in *. subst cb.
    apply list_elem_of_In in Hin. cbn [In registryNames] in Hin.
    repeat (destruct Hin as [Hin | Hin]; [subst n | ]); try destruct Hin.
    all: destruct ui as [m | ]; revert E; unfold applyTableFilters;
         cbn [Name String.eqb Ascii.eqb Bool.eqb andb]; run_case; intros E;
         try discriminate E; injection E as <-; cbn [RowModCallback] in F;
         try discriminate F; injection F as <-; auto.
  - rewrite (applyTableFilters_fallthrough t Hout) in E. congruence.
Qed.

(** C9: a callback that applyTableFilters installs on a table is
    deterministic.  Called on rows with the same column names, values and
    declared initial values, with any tables, both calls end the same way
    and return rows with the same names, values and initial values.
    (Neither closure reads a clock, the environment or a variable outside
    its arguments; the table argument is not used.) *)
Theorem installed_callbacks_deterministic (t t' : Table) (f : funcval) :
  applyTableFilters t = Returns t' ->
  RowModCallback t = None ->
  RowModCallback t' = Some f ->
  exists callback,
    callRowMod f = Some callback /\
    forall (v1 v2 : list RowDataStructure) (t1 t2 : Table),
      content <$> v1 = content <$> v2 ->
      fmap (M := outcome) (fmap content) (callback v1 t1)
      = fmap (M := outcome) (fmap content) (callback v2 t2).
Proof.
  intros E N F.
  destruct (applyTableFilters_installs t t' f E N F) as [-> | ->];
    eexists; (split; [reflexivity | ]); intros v1 v2 t1 t2 Hv.
  - by apply (callbacks_read_content rhnerrata_callback).
  - by apply (callbacks_read_content susesaltpillar_callback).
Qed.

Lemma installed_callbacks_deterministic_witness :
  exists callback,
    callRowMod susesaltpillar_callback = Some callback /\
    forall (v1 v2 : list RowDataStructure) (t1 t2 : Table),
      content <$> v1 = content <$> v2 ->
      fmap (M := outcome) (fmap content) (callback v1 t1)
      = fmap (M := outcome) (fmap content) (callback v2 t2).
Proof.
  apply (installed_callbacks_deterministic susesaltpillar_bare
           (setMainUniqueIndexName
              (setUniqueIndexes
                 (setRowModCallback susesaltpillar_bare (Some susesaltpillar_callback))
                 (Some (<[VirtualIndexName :=
                          UniqueIndex.mk VirtualIndexName
                            ["server_id"; "group_id"; "org_id"; "category"]]> ∅)))
              VirtualIndexName)).
  - reflexivity.
  - reflexivity.
  - reflexivity.
Defined.

(** The callbacks on the image pillar row and on the same row as another
    reader types its columns. *)
Example image_pillar_same_content :
  fmap (M := outcome) (fmap content)
    (susesaltpillarRowMod imagePillarRow susesaltpillar_bare)
  = fmap (M := outcome) (fmap content)
      (susesaltpillarRowMod imagePillarRowRetyped rhnerrata_bare).
Proof. by apply (callbacks_read_content susesaltpillar_callback). Qed.

(** * Further properties of the code *)

(** ** Panics and the identity key *)

(** Split on the case the switch takes for [t], given that the call
    returned: the table becomes its fields, the result an explicit
    record. *)
Ltac switch_cases t E :=
  let Hin := fresh "Hin" in
  let Hout := fresh "Hout" in
  destruct (decide (Name t ∈ registryNames)) as [Hin | Hout];
  [ destruct t as [n pk ui mu ux refs cb];
    cbn [Name PKSequence UniqueIndexes MainUniqueIndexName UnexportColumns
         References RowModCallback] in *;
    apply list_elem_of_In in Hin; cbn [In registryNames] in Hin;
    repeat (destruct Hin as [Hin | Hin]; [subst n | ]); try destruct Hin;
    destruct ui as [m | ]; revert E; unfold applyTableFilters;
    cbn [Name String.eqb Ascii.eqb Bool.eqb andb]; run_case; intros E;
    try discriminate E; injection E as <-; run_case
  | rewrite (applyTableFilters_fallthrough t Hout) in E; injection E as <- ].

(** The call panics exactly when the table's index map is nil and its
    case assigns into that map; the panic is the nil-map assignment.  On
    every other table it returns. *)
Theorem applyTableFilters_panics_iff (t : Table) :
  (UniqueIndexes t = None /\ Name t ∈ indexWriters ->
   applyTableFilters t = Panics NilMapAssignment) /\
  (~ (UniqueIndexes t = None /\ Name t ∈ indexWriters) ->
   exists t', applyTableFilters t = Returns t').
Proof.
  destruct (decide (Name t ∈ registryNames)) as [Hin | Hout].
  - destruct t as [n pk ui mu ux refs cb]. cbn [Name UniqueIndexes] in *.
    apply list_elem_of_In in Hin. cbn [In registryNames] in Hin.
    repeat (destruct Hin as [Hin | Hin]; [subst n | ]); try destruct Hin.
    all: destruct ui as [m | ]; unfold applyTableFilters;
         cbn [Name String.eqb Ascii.eqb Bool.eqb andb]; run_case;
         (split; [ intros [Hnil Hw]; first [ discriminate Hnil | reflexivity | idtac ]
                 | intros Hn; first [ by eexists | idtac ] ]).
    all: try (exfalso; apply Hn; split; [reflexivity | ];
              apply list_elem_of_In; cbn; tauto).
    all: exfalso; apply list_elem_of_In in Hw; cbn in Hw;
         repeat (destruct Hw as [Hw | Hw]; [discriminate Hw | ]); destruct Hw.
  - rewrite (applyTableFilters_fallthrough t Hout). split; [ | by eexists].
    intros [_ Hw]. exfalso. apply Hout.
    apply list_elem_of_In in Hw. cbn in Hw.
    repeat (destruct Hw as [Hw | Hw];
            [rewrite <- Hw; apply in_registryNames; cbn [In registryNames]; tauto | ]).
    destruct Hw.
Qed.

Lemma applyTableFilters_panics_iff_witness :
  applyTableFilters rhnpackage_nil = Panics NilMapAssignment /\
  exists t', applyTableFilters rhnserver_nil = Returns t'.
Proof.
  split.
  - apply (proj1 (applyTableFilters_panics_iff rhnpackage_nil)).
    split; [reflexivity | ]. apply list_elem_of_In. cbn. tauto.
  - apply (proj2 (applyTableFilters_panics_iff rhnserver_nil)).
    intros [_ H]. apply list_elem_of_In in H. cbn in H.
    repeat (destruct H as [H | H]; [discriminate H | ]). destruct H.
Defined.

(** Whether the identity key exists.  For every table but rhnerrata, if
    the input's main unique index names an entry of its index map, so does
    the result's (and for the virtual-index tables it does whatever the
    input was).  For rhnerrata the name is pinned without a look at the
    map: the result's main unique index names an entry exactly when the
    input map has an index rhn_errata_adv_org_uq. *)
Theorem applyTableFilters_main_index_present (t t' : Table) :
  applyTableFilters t = Returns t' ->
  (Name t <> "rhnerrata" -> mainIndexPresent t -> mainIndexPresent t') /\
  (Name t = "rhnerrata" ->
   (mainIndexPresent t' <-> is_Some (indexEntry t "rhn_errata_adv_org_uq"))).
Proof.
  intros E. unfold mainIndexPresent, indexEntry.
  switch_cases t E; (split; [intros Hne Hin | intros He]);
    cbn [mbind option_bind] in *; try done; try discriminate He;
    rewrite ?lookup_insert_eq; try (by eexists).
  - rewrite !lookup_insert. by repeat case_decide.
  - exfalso. apply Hout. rewrite He. apply in_registryNames.
    cbn [In registryNames]. tauto.
Qed.

Lemma applyTableFilters_main_index_present_witness :
  exists t' t'',
    applyTableFilters suseimageinfo_marked = Returns t' /\ mainIndexPresent t' /\
    applyTableFilters rhnerrata_unindexed = Returns t'' /\ ~ mainIndexPresent t''.
Proof.
  do 2 eexists. split; [reflexivity | ]. split; [ | split; [reflexivity | ]].
  - apply (proj1 (applyTableFilters_main_index_present suseimageinfo_marked _ eq_refl)).
    + discriminate.
    + by eexists.
  - intros H.
    apply (proj2 (applyTableFilters_main_index_present rhnerrata_unindexed _ eq_refl)
             eq_refl) in H.
    by destruct H.
Defined.

(** ** References, for any number of edges *)

Lemma edgesTo_regtoken_retarget (refs : list Reference) :
  edgesTo "rhnregtoken" (map retarget refs) = [].
Proof.
  unfold edgesTo. induction refs as [| r refs IH]; [done | ].
  cbn [map]. rewrite filter_cons, IH.
  destruct (decide (TableName r = "rhnregtoken")) as [e | ne].
  - rewrite (retarget_regtoken r e). by case_decide.
  - rewrite (retarget_other r ne). by case_decide.
Qed.

Lemma edgesTo_activationkey_retarget (refs : list Reference) :
  length (edgesTo "rhnactivationkey" (map retarget refs)) =
    length (edgesTo "rhnactivationkey" refs) + length (edgesTo "rhnregtoken" refs).
Proof.
  unfold edgesTo. induction refs as [| r refs IH]; [done | ].
  cbn [map]. rewrite !filter_cons.
  destruct (decide (TableName r = "rhnregtoken")) as [e | ne].
  - rewrite (retarget_regtoken r e). rewrite e.
    repeat case_decide; try done. cbn [length]. lia.
  - rewrite (retarget_other r ne).
    repeat case_decide; try done; cbn [length]; lia.
Qed.

(** On suseimageprofile, whatever the number of edges to rhnregtoken
    (none, one or several): the result has as many edges as the input,
    none of them to rhnregtoken; each edge to rhnregtoken has become the
    edge to rhnactivationkey at its position and each other edge stands
    unchanged at its position; so the edges to rhnactivationkey are the
    input's plus one per edge to rhnregtoken. *)
Theorem suseimageprofile_retargets_every_edge (t t' : Table) :
  Name t = "suseimageprofile" ->
  applyTableFilters t = Returns t' ->
  length (References t') = length (References t) /\
  edgesTo "rhnregtoken" (References t') = [] /\
  length (edgesTo "rhnactivationkey" (References t')) =
    length (edgesTo "rhnactivationkey" (References t))
    + length (edgesTo "rhnregtoken" (References t)) /\
  (forall i r,
     References t !! i = Some r ->
     References t' !! i =
       Some (if decide (TableName r = "rhnregtoken")
             then activationKeyReference else r)).
Proof.
  intros H. switch_on H. intros [= <-].
  cbn [References setReferences setPKSequence].
  rewrite foldl_retargetStep. cbn [app].
  split; [apply length_map | ].
  split; [apply edgesTo_regtoken_retarget | ].
  split; [apply edgesTo_activationkey_retarget | ].
  intros i r Hi. change (map retarget (References t)) with (retarget <$> References t).
  rewrite list_lookup_fmap, Hi. cbn. f_equal.
  case_decide as e; [by apply retarget_regtoken | by apply retarget_other].
Qed.

Lemma suseimageprofile_retargets_every_edge_witness :
  exists t',
    applyTableFilters suseimageprofile_many = Returns t' /\
    length (References t') = 4 /\
    edgesTo "rhnregtoken" (References t') = [] /\
    length (edgesTo "rhnactivationkey" (References t')) = 1 + 2 /\
    (forall i r,
       References suseimageprofile_many !! i = Some r ->
       References t' !! i =
         Some (if decide (TableName r = "rhnregtoken")
               then activationKeyReference else r)).
Proof.
  eexists. split; [reflexivity | ].
  apply (suseimageprofile_retargets_every_edge suseimageprofile_many _ eq_refl eq_refl).
Defined.

(** ** The URL rewrite on its own *)

Lemma placeholder_word : matches osImagesPattern placeholder.
Proof.
  apply osImagesPattern_words. exists (bytes "{SERVER_FQDN}").
  split; [done | ]. split; [ | reflexivity].
  repeat constructor; discriminate.
Qed.

Lemma startsWithWord_nil (s : list byte) : startsWithWord [] s.
Proof. exists [], s. split; [constructor | done]. Qed.

(** A word starting the output of a rewrite step by step traces back to
    a word starting the input, for the pattern and for each of its
    suffixes. *)
Lemma startsWithWord_traces_back (src dst : list byte) :
  rewritten osImagesPattern placeholder src dst ->
  forall re, suffix re osImagesPattern ->
             startsWithWord re dst -> startsWithWord re src.
Proof.
  induction 1 as [| m0 rest dst Hm0 H IH | b rest dst Hb H IH]; intros re Hs.
  - intros (m & tail & Hm & E). symmetry in E. apply app_eq_nil in E as [-> ->].
    by exists [], [].
  - intros (m & tail & Hm & E). destruct Hs as [pre Hp].
    unfold osImagesPattern in Hp. cbn in Hp.
    (* the whole pattern: the occurrence itself *)
    destruct pre as [| ? pre]; [cbn in Hp; subst re; by exists m0, rest | ].
    cbn in Hp. injection Hp as _ Hp.
    (* a suffix that starts in "ttps://" *)
    do 7 (destruct pre as [| ? pre];
          [ cbn in Hp; subst re; inversion Hm; subst; discriminate E
          | cbn in Hp; injection Hp as _ Hp ]).
    (* the suffix [^/]+/os-images/ *)
    destruct pre as [| ? pre].
    { cbn in Hp. subst re. exfalso.
      inversion Hm as [| | c re' run m1 Hne Hrun Hm1]; subst.
      repeat match goal with
      | H : matches (_ :: _) _ |- _ => inversion H; subst; clear H
      | H : matches [] _ |- _ => inversion H; subst; clear H
      end.
      change placeholder with (bytes "https:" ++ slash :: bytes "/{SERVER_FQDN}/os-images/") in E.
      rewrite <- !app_assoc in E. cbn [app] in E.
      assert (Hh : Forall (fun b => b <> slash) (bytes "https:"))
        by (repeat constructor; discriminate).
      destruct (split_at_first slash _ _ _ _ Hh Hrun E) as [_ E'].
      discriminate E'. }
    cbn in Hp. injection Hp as _ Hp.
    (* a suffix that starts in "/os-images/" *)
    do 11 (destruct pre as [| ? pre];
           [ cbn in Hp; subst re; inversion Hm; subst; discriminate E
           | cbn in Hp; injection Hp as _ Hp ]).
    (* the empty suffix *)
    symmetry in Hp. apply app_eq_nil in Hp as [_ ->]. apply startsWithWord_nil.
  - intros (m & tail & Hm & E).
    destruct Hm as [| c re m1 Hm1 | c re run m1 Hne Hrun Hm1].
    + apply startsWithWord_nil.
    + cbn [app] in E. injection E as -> E.
      destruct (IH re (suffix_cons_l _ _ _ Hs)) as (m1' & tail' & Hm1' & ->);
        [by exists m1, tail | ].
      exists (c :: m1'), tail'. split; [by constructor | done].
    + destruct run as [| r0 run]; [done | ].
      rewrite <- app_assoc in E. cbn [app] in E. injection E as -> E.
      apply Forall_cons in Hrun as [Hr0 Hrun].
      destruct run as [| r1 run].
      * destruct (IH re (suffix_cons_l _ _ _ Hs)) as (m1' & tail' & Hm1' & ->);
          [by exists m1, tail | ].
        exists ([r0] ++ m1'), tail'. split; [ | done].
        constructor; [done | by repeat constructor | done].
      * destruct (IH _ Hs) as (m' & tail' & Hm' & ->).
        { exists ((r1 :: run) ++ m1), tail. split; [by constructor | ].
          by rewrite <- app_assoc. }
        inversion Hm' as [| | c' re' run2 m2 Hne2 Hrun2 Hm2]; subst.
        exists ((r0 :: run2) ++ m2), tail'. split; [ | done].
        constructor; [done | by constructor | done].
Qed.

Lemma rewritten_fixed (src dst : list byte) :
  rewritten osImagesPattern placeholder src dst ->
  rewritten osImagesPattern placeholder dst dst.
Proof.
  intros H. pose proof (startsWithWord_traces_back _ _ H) as T.
  induction H as [| m0 rest dst Hm0 H IH | b rest dst Hb H IH].
  - constructor.
  - constructor; [apply placeholder_word | ].
    apply IH. by apply startsWithWord_traces_back.
  - constructor.
    + intros m tail Hm E.
      destruct (T osImagesPattern ltac:(done)) as (m' & tail' & Hm' & E');
        [by exists m, tail | ].
      by apply (Hb m' tail').
    + apply IH. by apply startsWithWord_traces_back.
Qed.

Lemma ReplaceAll_again (src : list byte) :
  ReplaceAll osImagesPattern (ReplaceAll osImagesPattern src placeholder) placeholder
  = ReplaceAll osImagesPattern src placeholder.
Proof.
  assert (Hre : osImagesPattern <> []) by done.
  pose proof (ReplaceAll_rewritten osImagesPattern placeholder src Hre) as H.
  apply rewritten_fixed in H.
  eapply rewritten_osImages_functional; [ | exact H].
  by apply ReplaceAll_rewritten.
Qed.






(** ** The susesaltpillar callback beyond the pillar column *)

Lemma lastPillar_column (value : list RowDataStructure) (c : RowDataStructure) :
  value !! lastPillar 0 value 0 = Some c ->
  isPillar c = true \/ lastPillar 0 value 0 = 0.
Proof.
  rewrite lastPillar_selected. unfold selectedColumn.
  destruct (last (filter (fun c => isPillar c = true) value)) as [c' | ] eqn:E.
  - intros [= ->]. left. by destruct (last_pillar_split _ _ E) as (? & ? & _ & ? & _).
  - intros _. right. apply last_None in E. by apply lastPillar_none.
Qed.

(** The shape of what the callback returns (proved through the
    case form of the callback). *)
Lemma susesaltpillarRowMod_returns (value out : list RowDataStructure) (t : Table) :
  susesaltpillarRowMod value t = Returns out ->
  out = value \/
  exists c src,
    existsb isImageCategory value = true /\
    forallb categoryIsText value = true /\
    value !! lastPillar 0 value 0 = Some c /\ Value c = Binary src /\
    out = <[lastPillar 0 value 0 :=
              setValue c (Binary (ReplaceAll osImagesPattern src placeholder))]> value.
Proof.
  rewrite susesaltpillarRowMod_eq.
  destruct (forallb categoryIsText value); [ | done].
  destruct (existsb isImageCategory value); [ | intros [= <-]; by left].
  destruct (value !! lastPillar 0 value 0) as [c | ]; [ | done].
  destruct (Value c) as [ | | src | | | ] eqn:V; try done.
  intros [= <-]. right. by exists c, src.
Qed.

(** Whenever the susesaltpillar callback returns, the row has the length
    it came with and every column its name, declared type and initial
    value; at most one position holds another column than before; and a
    column that is neither named pillar nor the first of the row is
    returned as it came. *)
Theorem susesaltpillar_callback_frame (value out : list RowDataStructure)
    (t : Table) :
  susesaltpillarRowMod value t = Returns out ->
  length out = length value /\
  ColumnName <$> out = ColumnName <$> value /\
  ColumnType <$> out = ColumnType <$> value /\
  GetInitialValue <$> out = GetInitialValue <$> value /\
  (exists p, forall i, i <> p -> out !! i = value !! i) /\
  (forall i c,
     value !! i = Some c -> ColumnName c <> "pillar" -> i <> 0 ->
     out !! i = Some c).
Proof.
  intros E. destruct (susesaltpillarRowMod_returns _ _ _ E)
    as [-> | (c & src & _ & _ & Hp & V & ->)].
  - repeat split; try done. by exists 0.
  - rewrite length_insert, !list_fmap_insert. cbn [setValue ColumnName ColumnType
      GetInitialValue initialValue].
    rewrite !list_insert_id by (by rewrite list_lookup_fmap, Hp).
    do 4 (split; [done | ]). split.
    + exists (lastPillar 0 value 0). intros i Hi. by rewrite list_lookup_insert_ne.
    + intros i d Hi Hd H0.
      destruct (decide (i = lastPillar 0 value 0)) as [-> | ne];
        [ | by rewrite list_lookup_insert_ne].
      exfalso. assert (d = c) as -> by congruence.
      destruct (lastPillar_column value c Hp) as [Hc | Hz]; [ | congruence].
      unfold isPillar in Hc. by apply String.eqb_eq in Hc.
Qed.

Lemma susesaltpillar_callback_frame_witness :
  exists out,
    susesaltpillarRowMod imagePillarRow susesaltpillar_bare = Returns out /\
    length out = length imagePillarRow /\
    ColumnName <$> out = ColumnName <$> imagePillarRow /\
    ColumnType <$> out = ColumnType <$> imagePillarRow /\
    GetInitialValue <$> out = GetInitialValue <$> imagePillarRow /\
    (exists p, forall i, i <> p -> out !! i = imagePillarRow !! i) /\
    (forall i c,
       imagePillarRow !! i = Some c -> ColumnName c <> "pillar" -> i <> 0 ->
       out !! i = Some c).
Proof.
  eexists. split; [reflexivity | ].
  apply (susesaltpillar_callback_frame imagePillarRow _ susesaltpillar_bare).
  reflexivity.
Defined.

(** Two columns the scanning loop cannot tell apart. *)
Lemma scan_alike_forallb (f : RowDataStructure -> bool)
    (v1 v2 : list RowDataStructure) :
  Forall2 (fun a b => f a = f b) v1 v2 -> forallb f v1 = forallb f v2.
Proof.
  induction 1 as [| a b l1 l2 Hab _ IH]; [done | ]. cbn [forallb]. by rewrite Hab, IH.
Qed.

Lemma scan_alike_existsb (f : RowDataStructure -> bool)
    (v1 v2 : list RowDataStructure) :
  Forall2 (fun a b => f a = f b) v1 v2 -> existsb f v1 = existsb f v2.
Proof.
  induction 1 as [| a b l1 l2 Hab _ IH]; [done | ]. cbn [existsb]. by rewrite Hab, IH.
Qed.

Lemma scan_alike_lastPillar (v1 v2 : list RowDataStructure) (i p : nat) :
  Forall2 (fun a b => isPillar a = isPillar b) v1 v2 ->
  lastPillar i v1 p = lastPillar i v2 p.
Proof.
  intros H. revert i p. induction H as [| a b l1 l2 Hab _ IH]; intros i p; [done | ].
  cbn [lastPillar]. rewrite Hab. apply IH.
Qed.

Lemma insert_alike (f : RowDataStructure -> bool) (value : list RowDataStructure)
    (p : nat) (c c' : RowDataStructure) :
  value !! p = Some c -> f c' = f c ->
  Forall2 (fun a b => f a = f b) (<[p := c']> value) value.
Proof.
  intros Hp Hf. rewrite <- (list_insert_id value p c Hp) at 2.
  apply Forall2_insert; [ | done]. by apply Forall_Forall2_diag, Forall_true.
Qed.

(** The susesaltpillar callback applied to a row it has returned returns
    that row again: exporting an already rewritten pillar rewrites
    nothing further. *)
Theorem susesaltpillar_callback_idempotent (value out : list RowDataStructure)
    (t1 t2 : Table) :
  susesaltpillarRowMod value t1 = Returns out ->
  susesaltpillarRowMod out t2 = Returns out.
Proof.
  intros E. destruct (susesaltpillarRowMod_returns _ _ _ E)
    as [-> | (c & src & I & T & Hp & V & ->)].
  - by rewrite <- E, !susesaltpillarRowMod_eq.
  - set (p := lastPillar 0 value 0) in *.
    set (c' := setValue c (Binary (ReplaceAll osImagesPattern src placeholder))).
    assert (Hcat : String.eqb (ColumnName c) "category" = false).
    { assert (Hc : categoryIsText c = true).
      { rewrite forallb_forall in T. apply T. apply list_elem_of_In.
        by apply list_elem_of_lookup_2 in Hp. }
      unfold categoryIsText in Hc. rewrite V in Hc.
      by destruct (String.eqb (ColumnName c) "category"). }
    assert (A1 : categoryIsText c' = categoryIsText c)
      by (unfold categoryIsText; cbn; by rewrite Hcat).
    assert (A2 : isImageCategory c' = isImageCategory c)
      by (unfold isImageCategory; cbn; by rewrite Hcat).
    assert (A3 : isPillar c' = isPillar c) by done.
    rewrite susesaltpillarRowMod_eq.
    rewrite (scan_alike_forallb _ _ _ (insert_alike _ _ _ _ _ Hp A1)), T.
    rewrite (scan_alike_existsb _ _ _ (insert_alike _ _ _ _ _ Hp A2)), I.
    rewrite (scan_alike_lastPillar _ _ 0 0 (insert_alike _ _ _ _ _ Hp A3)).
    fold p. rewrite list_lookup_insert_eq by (by apply lookup_lt_Some in Hp).
    cbn [c' setValue Value]. fold placeholder.
    rewrite ReplaceAll_again.
    by rewrite list_insert_insert_eq.
Qed.

Lemma susesaltpillar_callback_idempotent_witness :
  exists out,
    susesaltpillarRowMod imagePillarRow susesaltpillar_bare = Returns out /\
    susesaltpillarRowMod out susesaltpillar_bare = Returns out.
Proof.
  eexists. split; [reflexivity | ].
  apply (susesaltpillar_callback_idempotent imagePillarRow _ susesaltpillar_bare).
  reflexivity.
Defined.
